(** * TaskManagementApp: the task table's state core, in Rocq

    A shallow embedding of the React task manager:
    - [src/components/TaskTable.jsx]: undo/redo history, task CRUD handlers,
      the custom-field backfill and the filter / sort / paginate view chain;
    - [src/components/CustomFieldsModal.jsx]: field-name validation and the
      pending field list.

    Event handlers are modelled as functions on the component state that was
    rendered when the handler fired; each [setX] call becomes a record update.
    Values that a handler obtains from the environment ([Date.now()],
    [window.confirm]) are arguments. *)

From Stdlib Require Import ZArith String Ascii.
From stdpp Require Import gmap strings list sorting pretty.

Local Open Scope string_scope.
Local Open Scope list_scope.
Local Open Scope Z_scope.

(** ** The JavaScript fragment the program relies on *)

Module Js.

(** Scalar values stored in task objects. JavaScript numbers are modelled
    as integers: ids are [Date.now()] timestamps and number fields start
    at [0]. A missing property ([undefined]) is [None] at lookup. *)
Inductive value : Type :=
  | VNull
  | VBool (b : bool)
  | VNum (n : Z)
  | VStr (s : string).

#[global] Instance value_eq_dec : EqDecision value.
Proof. solve_decision. Defined.

Inductive error : Type := TypeError.

(** Outcome of code that may throw. *)
Inductive result (A : Type) : Type :=
  | Ok (a : A)
  | Throw (e : error).
Arguments Ok {A} a.
Arguments Throw {A} e.

Definition bind {A B} (r : result A) (k : A -> result B) : result B :=
  match r with
  | Ok a => k a
  | Throw e => Throw e
  end.

(** [a === b] on scalars and [undefined]. *)
Definition strict_eq (a b : option value) : bool := bool_decide (a = b).

(** [arr.slice(start, end)]: negative arguments count from the end, both
    are clamped to the array bounds. *)
Definition slice {A} (arr : list A) (start end_ : Z) : list A :=
  let len := Z.of_nat (length arr) in
  let k := if start <? 0 then Z.max (len + start) 0 else Z.min start len in
  let final := if end_ <? 0 then Z.max (len + end_) 0 else Z.min end_ len in
  take (Z.to_nat (final - k)) (drop (Z.to_nat k) arr).

(** [arr[i]]: [undefined] ([None]) outside the bounds. *)
Definition index {A} (arr : list A) (i : Z) : option A :=
  if i <? 0 then None else arr !! Z.to_nat i.

(** [arr.filter(f)] for a callback that may throw: the first exception
    aborts the traversal. *)
Fixpoint filter {A} (f : A -> result bool) (arr : list A) : result (list A) :=
  match arr with
  | [] => Ok []
  | x :: rest =>
      bind (f x) (fun keep =>
      bind (filter f rest) (fun rest' =>
      Ok (if keep then x :: rest' else rest')))
  end.

(** Strings are sequences of code units below 256 (Latin-1). *)
Definition lower_unit (c : ascii) : ascii :=
  let n := N_of_ascii c in
  if ((65 <=? n) && (n <=? 90) || (192 <=? n) && (n <=? 214)
      || (216 <=? n) && (n <=? 222))%N
  then ascii_of_N (n + 32) else c.

(** [s.toLowerCase()] *)
Fixpoint toLowerCase (s : string) : string :=
  match s with
  | EmptyString => EmptyString
  | String c s' => String (lower_unit c) (toLowerCase s')
  end.

(** [s.includes(sub)] *)
Fixpoint includes (s sub : string) : bool :=
  String.prefix sub s ||
  match s with
  | EmptyString => false
  | String _ s' => includes s' sub
  end.

(** Key sets visible to the [in] operator through [Object.prototype]. *)
Definition Object_prototype_keys : list string :=
  [ "constructor"; "__defineGetter__"; "__defineSetter__"; "hasOwnProperty";
    "__lookupGetter__"; "__lookupSetter__"; "isPrototypeOf";
    "propertyIsEnumerable"; "toString"; "valueOf"; "__proto__";
    "toLocaleString" ].

(** [k in o] for a plain object [o]: own keys and inherited ones. *)
Definition has_property (k : string) (o : gmap string value) : bool :=
  bool_decide (is_Some (o !! k)) || bool_decide (k ∈ Object_prototype_keys).

(** [Array.prototype.sort(cmp)]: the stable sort that ECMAScript requires;
    [cmp a b <= 0] keeps [a] in front of [b]. *)
Section Sort.
Context {A : Type} (cmp : A -> A -> Z).

Fixpoint sort_insert (x : A) (sorted : list A) : list A :=
  match sorted with
  | [] => [x]
  | y :: rest =>
      if cmp x y <=? 0 then x :: y :: rest else y :: sort_insert x rest
  end.

Definition sort (arr : list A) : list A := foldr sort_insert [] arr.
End Sort.

(** The relational operators [<] and [>]. Two strings compare by code
    units; any other pair is compared after conversion to a number, and a
    comparison involving [NaN] is false. The runtime's parsing of numeric
    strings is a parameter ([None] stands for [NaN]). *)
Section Relational.
Variable StringToNumber : string -> option Z.

Definition ToNumber (v : option value) : option Z :=
  match v with
  | None => None
  | Some VNull => Some 0
  | Some (VBool b) => Some (if b then 1 else 0)
  | Some (VNum n) => Some n
  | Some (VStr s) => StringToNumber s
  end.

Definition lt (a b : option value) : bool :=
  match a, b with
  | Some (VStr x), Some (VStr y) => String.ltb x y
  | _, _ =>
      match ToNumber a, ToNumber b with
      | Some x, Some y => x <? y
      | _, _ => false
      end
  end.

Definition gt (a b : option value) : bool := lt b a.
End Relational.

End Js.

Export Js (value(..), result(..), error(..)).

(** ** Data model *)

(** A task is a plain object: [id], [title], [priority], [status] and any
    custom field are properties of one map. *)
Abbreviation Task := (gmap string value).

(** Custom field descriptor [{id, name, type}]. *)
Record Field : Type := mkField {
  field_id : Z;
  field_name : string;
  field_type : string;
}.

#[global] Instance Field_eq_dec : EqDecision Field.
Proof. solve_decision. Defined.

(** The icon a notification may carry: the wastebasket emoji (U+1F5D1). *)
Inductive Icon : Type := Wastebasket.

(** A [toast.success(message, {..., icon})] call. *)
Record Toast : Type := mkToast {
  toast_message : string;
  toast_icon : option Icon;
}.

(** ** TaskTable *)

Module TaskTable.

(** The store's [tasks] and the component's [useState] cells, plus the log
    of notifications emitted so far. *)
Record State : Type := mkState {
  tasks : list Task;
  customFields : list Field;
  history : list (list Task);
  historyIndex : Z;
  toasts : list Toast;
}.

Definition setTasks (v : list Task) (s : State) : State :=
  mkState v (customFields s) (history s) (historyIndex s) (toasts s).
Definition setCustomFields (v : list Field) (s : State) : State :=
  mkState (tasks s) v (history s) (historyIndex s) (toasts s).
Definition setHistory (v : list (list Task)) (s : State) : State :=
  mkState (tasks s) (customFields s) v (historyIndex s) (toasts s).
Definition setHistoryIndex (v : Z) (s : State) : State :=
  mkState (tasks s) (customFields s) (history s) v (toasts s).
Definition toast_success (msg : string) (icon : option Icon) (s : State)
  : State :=
  mkState (tasks s) (customFields s) (history s) (historyIndex s)
          (toasts s ++ [mkToast msg icon]).

(** State of a freshly mounted component. *)
Definition initialState : State := mkState [] [] [] (-1) [].

(** The loading effect once task data is at hand (from storage, or from
    the fetch when it succeeds): the history is seeded with that list. *)
Definition loadTasks (data : list Task) (s : State) : State :=
  setHistoryIndex 0 (setHistory [data] (setTasks data s)).

Definition addToHistory (newTasks : list Task) (s : State) : State :=
  let newHistory := Js.slice (history s) 0 (historyIndex s + 1) ++ [newTasks] in
  setHistoryIndex (Z.of_nat (length newHistory) - 1) (setHistory newHistory s).

(** [setTasks(history[i])] with [history[i]] undefined leaves the store
    without a task array, and the next render throws on [tasks.filter];
    that outcome is [Throw TypeError]. *)
Definition handleUndo (s : State) : result State :=
  if historyIndex s >? 0 then
    match Js.index (history s) (historyIndex s - 1) with
    | Some snapshot =>
        Ok (setTasks snapshot (setHistoryIndex (historyIndex s - 1) s))
    | None => Throw TypeError
    end
  else Ok s.

Definition handleRedo (s : State) : result State :=
  if historyIndex s <? Z.of_nat (length (history s)) - 1 then
    match Js.index (history s) (historyIndex s + 1) with
    | Some snapshot =>
        Ok (setTasks snapshot (setHistoryIndex (historyIndex s + 1) s))
    | None => Throw TypeError
    end
  else Ok s.

(** [handleCreateTask(newTask)] with [now] the value of [Date.now()]:
    the spread keeps the draft's properties and overrides [id]. *)
Definition handleCreateTask (now : Z) (newTask : Task) (s : State) : State :=
  let task := <["id" := VNum now]> newTask in
  let newTasks := tasks s ++ [task] in
  toast_success "Task created successfully!" None
    (addToHistory newTasks (setTasks newTasks s)).

Definition handleEditTask (updatedTask : Task) (s : State) : State :=
  let newTasks :=
    map (fun task =>
           if Js.strict_eq (task !! "id") (updatedTask !! "id")
           then updatedTask else task)
        (tasks s) in
  toast_success "Task updated successfully!" None
    (addToHistory newTasks (setTasks newTasks s)).

(** [confirmed] is the answer given to [window.confirm]. *)
Definition handleDeleteTask (confirmed : bool) (taskId : option value)
    (s : State) : State :=
  if confirmed then
    let newTasks :=
      List.filter (fun task => negb (Js.strict_eq (task !! "id") taskId))
                  (tasks s) in
    toast_success "Task deleted successfully!" (Some Wastebasket)
      (addToHistory newTasks (setTasks newTasks s))
  else s.

(** Default a field receives on tasks that lack it. *)
Definition defaultValue (type : string) : value :=
  if String.eqb type "checkbox" then VBool false
  else if String.eqb type "number" then VNum 0
  else VStr "".

(** One [fields.forEach] step on the copy [newTask]. *)
Definition backfillField (newTask : Task) (field : Field) : Task :=
  if negb (Js.has_property (field_name field) newTask)
  then <[field_name field := defaultValue (field_type field)]> newTask
  else newTask.

Definition backfill (fields : list Field) (task : Task) : Task :=
  foldl backfillField task fields.

Definition handleCustomFieldsSave (fields : list Field) (s : State) : State :=
  let updatedTasks := map (backfill fields) (tasks s) in
  setTasks updatedTasks (setCustomFields fields s).

(** *** The view chain *)

Record Filters : Type := mkFilters {
  filters_title : string;
  filters_priority : string;
  filters_status : string;
}.

Record SortConfig : Type := mkSortConfig {
  sort_key : option string;
  sort_direction : string;
}.

Record Pagination : Type := mkPagination {
  currentPage : Z;
  pageSize : Z;
}.

(** The filter callback. [task.title.toLowerCase()] throws unless the
    title is a string. *)
Definition matchesFilters (filters : Filters) (task : Task) : result bool :=
  match task !! "title" with
  | Some (VStr title) =>
      let matchesTitle :=
        Js.includes (Js.toLowerCase title)
                    (Js.toLowerCase (filters_title filters)) in
      let matchesPriority :=
        String.eqb (filters_priority filters) "all"
        || Js.strict_eq (task !! "priority")
                        (Some (VStr (filters_priority filters))) in
      let matchesStatus :=
        String.eqb (filters_status filters) "all"
        || Js.strict_eq (task !! "status")
                        (Some (VStr (filters_status filters))) in
      Ok (matchesTitle && matchesPriority && matchesStatus)
  | _ => Throw TypeError
  end.

Definition filteredTasks (filters : Filters) (tasks : list Task)
  : result (list Task) :=
  Js.filter (matchesFilters filters) tasks.

(** A click on a column header: a second click on the column that is
    sorted ascending turns the direction around. *)
Definition handleSort (key : string) (sortConfig : SortConfig) : SortConfig :=
  let direction :=
    if bool_decide (sort_key sortConfig = Some key)
       && String.eqb (sort_direction sortConfig) "asc"
    then "desc" else "asc" in
  mkSortConfig (Some key) direction.

Section Sorting.
Variable StringToNumber : string -> option Z.

(** The comparator handed to [sort]. [!sortConfig.key] holds for [null]
    and for the empty string; [a[key]] reads the task's own property. *)
Definition compareTasks (sortConfig : SortConfig) (a b : Task) : Z :=
  match sort_key sortConfig with
  | None => 0
  | Some key =>
      if String.eqb key "" then 0 else
      let aValue := a !! key in
      let bValue := b !! key in
      if Js.lt StringToNumber aValue bValue then
        (if String.eqb (sort_direction sortConfig) "asc" then -1 else 1)
      else if Js.gt StringToNumber aValue bValue then
        (if String.eqb (sort_direction sortConfig) "asc" then 1 else -1)
      else 0
  end.

Definition sortedTasks (sortConfig : SortConfig) (filtered : list Task)
  : list Task :=
  Js.sort (compareTasks sortConfig) filtered.
End Sorting.

Definition paginatedTasks (pagination : Pagination) (sorted : list Task)
  : list Task :=
  Js.slice sorted
    ((currentPage pagination - 1) * pageSize pagination)
    (currentPage pagination * pageSize pagination).

(** [Math.ceil(sortedTasks.length / pageSize)]; with [pageSize = 0] the
    quotient is [Infinity] or [NaN], which is [None] here. *)
Definition totalPages (pagination : Pagination) (sorted : list Task)
  : option Z :=
  if pageSize pagination =? 0 then None
  else Some (- ((- Z.of_nat (length sorted)) / pageSize pagination)).

End TaskTable.

(** ** CustomFieldsModal *)

Module CustomFieldsModal.

Record NewField : Type := mkNewField {
  newField_name : string;
  newField_type : string;
}.

Record State : Type := mkState {
  fields : list Field;
  newField : NewField;
  error : string;
}.

Definition is_letter (c : ascii) : bool :=
  let n := N_of_ascii c in
  ((97 <=? n) && (n <=? 122) || (65 <=? n) && (n <=? 90))%N.

Definition is_word_unit (c : ascii) : bool :=
  let n := N_of_ascii c in
  (is_letter c || (48 <=? n) && (n <=? 57) || (n =? 95))%N.

Fixpoint all_units (p : ascii -> bool) (s : string) : bool :=
  match s with
  | EmptyString => true
  | String c s' => p c && all_units p s'
  end.

(** [/^[a-zA-Z][a-zA-Z0-9_]*$/.test(name)] *)
Definition identifier_test (name : string) : bool :=
  match name with
  | EmptyString => false
  | String c rest => is_letter c && all_units is_word_unit rest
  end.

Definition validateFieldName (fields : list Field) (name : string) : string :=
  if String.eqb name "" then "Field name is required"
  else if Z.of_nat (String.length name) <? 2
  then "Field name must be at least 2 characters"
  else if existsb (fun field =>
                     String.eqb (Js.toLowerCase (field_name field))
                                (Js.toLowerCase name)) fields
  then "Field name must be unique"
  else if negb (identifier_test name)
  then "Field name must start with a letter and contain only letters, numbers, and underscores"
  else "".

(** [now] is the value of [Date.now()]. *)
Definition handleAddField (now : Z) (s : State) : State :=
  let validationError := validateFieldName (fields s) (newField_name (newField s)) in
  if negb (String.eqb validationError "") then
    mkState (fields s) (newField s) validationError
  else
    mkState
      (fields s ++ [mkField now (newField_name (newField s))
                                (newField_type (newField s))])
      (mkNewField "" "text")
      "".

Definition handleRemoveField (fieldId : Z) (s : State) : State :=
  mkState (List.filter (fun field => negb (field_id field =? fieldId)) (fields s))
          (newField s) (error s).

End CustomFieldsModal.

(** ** Vocabulary of the history properties *)

Import TaskTable.

(** The history has been seeded: there is at least one entry and the cursor
    points at one of them. *)
Definition initialized (s : State) : Prop :=
  history s ≠ [] ∧ 0 <= historyIndex s < Z.of_nat (length (history s)).

(** The entry under the cursor is the task list on display. *)
Definition coherent (s : State) : Prop :=
  initialized s ∧ Js.index (history s) (historyIndex s) = Some (tasks s).

(** What every mutating handler does with its result [newTasks]:
    [setTasks(newTasks); addToHistory(newTasks); toast.success(...)]. *)
Definition push (newTasks : list Task) (msg : string) (icon : option Icon)
    (s : State) : State :=
  toast_success msg icon (addToHistory newTasks (setTasks newTasks s)).

(** One user action on the history. *)
Inductive step : State -> State -> Prop :=
  | step_push s newTasks msg icon : step s (push newTasks msg icon s)
  | step_undo s s' : handleUndo s = Ok s' -> step s s'
  | step_redo s s' : handleRedo s = Ok s' -> step s s'.

(** [k] undo actions in a row. *)
Fixpoint undos (k : nat) (s : State) : result State :=
  match k with
  | O => Ok s
  | S k' => Js.bind (handleUndo s) (undos k')
  end.

(** ** Vocabulary of the field-name rules *)

(** The code unit [c] lies between [lo] and [hi]. *)
Definition unit_in (lo hi c : ascii) : Prop :=
  (N_of_ascii lo <= N_of_ascii c <= N_of_ascii hi)%N.

Definition letter (c : ascii) : Prop :=
  unit_in "a" "z" c ∨ unit_in "A" "Z" c.

Definition word_unit (c : ascii) : Prop :=
  letter c ∨ unit_in "0" "9" c ∨ unit_in "_" "_" c.

(** A letter followed by letters, digits and underscores only. *)
Definition identifier_pattern (name : string) : Prop :=
  exists c rest,
    name = String c rest ∧ letter c
    ∧ Forall word_unit (list_ascii_of_string rest).

(** Some pending field already has this name, up to case. *)
Definition duplicates (fields : list Field) (name : string) : Prop :=
  exists field,
    field ∈ fields ∧ Js.toLowerCase (field_name field) = Js.toLowerCase name.

(** ** Vocabulary of the view chain *)


(** The task's title is a string, as the data model has it. *)
Definition has_title (task : Task) : Prop :=
  exists title, task !! "title" = Some (VStr title).


(** The callback's verdict as a boolean, for tasks on which it returns. *)
Definition passes (filters : Filters) (task : Task) : bool :=
  match matchesFilters filters task with
  | Ok verdict => verdict
  | Throw _ => false
  end.

(** The sort state after the Title header was clicked once (["asc"]) or
    twice (["desc"]). *)
Definition byTitle (direction : string) : SortConfig :=
  mkSortConfig (Some "title") direction.

(** The title of a task whose title is a string. *)
Definition title_of (task : Task) : string :=
  match task !! "title" with
  | Some (VStr title) => title
  | _ => ""
  end.

(** [a]'s title comes strictly before [b]'s in code-unit order. *)
Definition title_before (a b : Task) : Prop :=
  String.ltb (title_of a) (title_of b) = true.

(** ** Sample data *)

Module Sample.
Definition task (id : Z) (title priority status : string) : Task :=
  <["id" := VNum id]> (<["title" := VStr title]>
    (<["priority" := VStr priority]> (<["status" := VStr status]> ∅))).

Definition milk : Task := task 1 "Buy milk" "none" "not_started".
Definition report : Task := task 2 "Write report" "high" "in_progress".
Definition call : Task := task 3 "call Bob" "urgent" "completed".

(** A component that loaded one stored task. *)
Definition loaded : State := loadTasks [milk] initialState.
(** The same after a second task was created at time 2 ... *)
Definition created : State :=
  handleCreateTask 2 (task 0 "Write report" "high" "in_progress") loaded.
(** ... and after that creation was undone. *)
Definition undone : State := setTasks [milk] (setHistoryIndex 0 created).
End Sample.

(** ** TaskTable: loading, saving from the modals, selection, page controls *)

Module Loading.

(** The loading effect when [getStoredTasks()] returned [storedTasks]: a
    non-empty list seeds the task list and the history; an empty one changes
    nothing and starts the fetch. *)
Definition loadStored (storedTasks : list Task) (s : State) : State :=
  if Z.of_nat (length storedTasks) >? 0 then loadTasks storedTasks s else s.

(** The fetch settles, on the state rendered by then: with the parsed
    [data], or with a failure ([None]) that is only logged. *)
Definition fetchSettled (response : option (list Task)) (s : State) : State :=
  match response with
  | Some data => loadTasks data s
  | None => s
  end.

End Loading.

(** [k] redo actions in a row. *)
Fixpoint redos (k : nat) (s : State) : result State :=
  match k with
  | O => Ok s
  | S k' => Js.bind (handleRedo s) (redos k')
  end.

Module TaskModal.

(** The form of a modal opened without a task. *)
Definition defaultFormData : Task :=
  <["title" := VStr ""]> (<["priority" := VStr "none"]>
    (<["status" := VStr "not_started"]> ∅)).

(** An input's [onChange]: [setFormData({ ...formData, [name]: v })]. *)
Definition changeField (name : string) (v : value) (formData : Task) : Task :=
  <[name := v]> formData.

End TaskModal.

(** The [onSave] that [TaskTable] hands to the task modal. *)
Definition onSave (editingTask : option Task) (now : Z) (task : Task)
    (s : State) : State :=
  match editingTask with
  | Some _ => handleEditTask task s
  | None => handleCreateTask now task s
  end.

Module Selection.

(** [ids.includes(id)] *)
Definition includes (ids : list (option value)) (id : option value) : bool :=
  existsb (fun other => Js.strict_eq other id) ids.

Definition handleSelectTask (taskId : option value)
    (prev : list (option value)) : list (option value) :=
  if includes prev taskId
  then List.filter (fun id => negb (Js.strict_eq id taskId)) prev
  else prev ++ [taskId].

(** [checked] is [e.target.checked]. *)
Definition handleSelectAll (checked : bool) (paginatedTasks : list Task)
  : list (option value) :=
  if checked then map (fun task => task !! "id") paginatedTasks else [].

(** Returns the new state and the new selection. [window.confirm] is only
    asked when something is selected. *)
Definition handleBulkDelete (confirmed : bool)
    (selectedTasks : list (option value)) (s : State)
  : State * list (option value) :=
  if Z.of_nat (length selectedTasks) =? 0 then (s, selectedTasks)
  else if confirmed then
    let newTasks :=
      List.filter (fun task => negb (includes selectedTasks (task !! "id")))
                  (tasks s) in
    (toast_success
       (pretty (length selectedTasks) +:+ " tasks deleted successfully!")
       (Some Wastebasket)
       (addToHistory newTasks (setTasks newTasks s)),
     [])
  else (s, selectedTasks).

End Selection.

Module PageControls.

(** The page-size select: [{ ...pagination, currentPage: 1, pageSize }]. *)
Definition changePageSize (size : Z) (pagination : Pagination) : Pagination :=
  mkPagination 1 size.

(** The Previous button; it is disabled on page 1. *)
Definition clickPrevious (pagination : Pagination) : Pagination :=
  if currentPage pagination =? 1 then pagination
  else mkPagination (currentPage pagination - 1) (pageSize pagination).

(** The Next button; it is disabled when the page number equals
    [totalPages]. *)
Definition clickNext (sorted : list Task) (pagination : Pagination)
  : Pagination :=
  if bool_decide (totalPages pagination sorted = Some (currentPage pagination))
  then pagination
  else mkPagination (currentPage pagination + 1) (pageSize pagination).

(** One use of the page controls. *)
Inductive action : Type :=
  | Previous
  | Next
  | PageSize (size : Z).

Definition perform (sorted : list Task) (a : action) (pagination : Pagination)
  : Pagination :=
  match a with
  | Previous => clickPrevious pagination
  | Next => clickNext sorted pagination
  | PageSize size => changePageSize size pagination
  end.

End PageControls.

(** ** Vocabulary of the further properties *)

(** The pages [1 .. n], one after the other. *)
Definition pages (n : nat) (size : Z) (sorted : list Task) : list Task :=
  concat (map (fun p => paginatedTasks (mkPagination (Z.of_nat p) size) sorted)
              (seq 1 n)).

(** [a]'s title does not come after [b]'s. *)
Definition title_not_after (a b : Task) : Prop :=
  String.le (title_of a) (title_of b).

(** The tasks of [l] that carry the title [title], in their order. *)
Definition with_title (title : string) (l : list Task) : list Task :=
  List.filter (fun task => String.eqb (title_of task) title) l.

(** The field names are pairwise different up to case and each is an
    identifier of at least two characters. *)
Definition well_named (fields : list Field) : Prop :=
  NoDup (map (fun field => Js.toLowerCase (field_name field)) fields)
  ∧ Forall (fun field =>
              identifier_pattern (field_name field)
              ∧ (2 <= String.length (field_name field))%nat) fields.

(** Deleting the given ids one confirmed click after the other. *)
Definition deleteEach (ids : list (option value)) (s : State) : State :=
  foldl (fun s' id => handleDeleteTask true id s') s ids.

(** ** Array primitives *)

Section ArrayFacts.
Context {A : Type}.
Implicit Types (arr : list A) (i j : Z).

Lemma slice_take_drop arr i j :
  0 <= i -> 0 <= j ->
  Js.slice arr i j = take (Z.to_nat (j - i)) (drop (Z.to_nat i) arr).
Proof.
  intros Hi Hj. unfold Js.slice.
  destruct (Z.ltb_spec i 0) as [?|_]; [lia|].
  destruct (Z.ltb_spec j 0) as [?|_]; [lia|].
  destruct (Z.le_gt_cases (Z.of_nat (length arr)) i) as [Hbig|Hsmall].
  - rewrite (drop_ge arr (Z.to_nat i)) by lia.
    rewrite (drop_ge arr (Z.to_nat (Z.min i _))) by lia.
    by rewrite !take_nil.
  - rewrite (Z.min_l i) by lia.
    destruct (Z.le_gt_cases j (Z.of_nat (length arr))) as [Hj'|Hj'].
    + by rewrite (Z.min_l j) by lia.
    + rewrite (Z.min_r j) by lia.
      rewrite !take_ge; [done| |]; rewrite length_drop; lia.
Qed.

Lemma slice_prefix arr j :
  0 <= j -> Js.slice arr 0 j = take (Z.to_nat j) arr.
Proof.
  intros Hj. rewrite slice_take_drop by lia.
  by rewrite Z.sub_0_r, drop_0.
Qed.

Lemma index_lookup arr i :
  0 <= i -> Js.index arr i = arr !! Z.to_nat i.
Proof.
  intros Hi. unfold Js.index. by destruct (Z.ltb_spec i 0); [lia|].
Qed.
End ArrayFacts.

(** ** The undo / redo history *)

Section HistoryFacts.
Implicit Types (s : State) (newTasks : list Task).

Lemma addToHistory_entries s newTasks :
  -1 <= historyIndex s ->
  history (addToHistory newTasks s)
  = take (Z.to_nat (historyIndex s + 1)) (history s) ++ [newTasks].
Proof. intros Hi. cbn. by rewrite slice_prefix by lia. Qed.

Lemma addToHistory_cursor s newTasks :
  historyIndex (addToHistory newTasks s)
  = Z.of_nat (length (history (addToHistory newTasks s))) - 1.
Proof. reflexivity. Qed.

Lemma addToHistory_length s newTasks :
  initialized s ->
  Z.of_nat (length (history (addToHistory newTasks s))) = historyIndex s + 2.
Proof.
  intros [_ Hi]. rewrite addToHistory_entries by lia.
  rewrite length_app, length_take. cbn. lia.
Qed.

Lemma addToHistory_initialized s newTasks :
  initialized s -> initialized (addToHistory newTasks s).
Proof.
  intros Hs. pose proof (addToHistory_length s newTasks Hs) as Hlen.
  destruct Hs as [_ Hi]. split.
  - intros Hnil. rewrite Hnil in Hlen. cbn in Hlen. lia.
  - rewrite addToHistory_cursor. lia.
Qed.

Lemma handleUndo_steps s :
  initialized s -> 0 < historyIndex s ->
  exists snapshot,
    history s !! Z.to_nat (historyIndex s - 1) = Some snapshot
    ∧ handleUndo s
      = Ok (setTasks snapshot (setHistoryIndex (historyIndex s - 1) s)).
Proof.
  intros [_ Hi] Hpos.
  destruct (lookup_lt_is_Some_2 (history s) (Z.to_nat (historyIndex s - 1)))
    as [snapshot Hsnap]; [lia|].
  exists snapshot. split; [done|]. unfold handleUndo.
  destruct (Z.gtb_spec (historyIndex s) 0); [|lia].
  by rewrite index_lookup, Hsnap by lia.
Qed.

Lemma handleUndo_stays s :
  historyIndex s <= 0 -> handleUndo s = Ok s.
Proof.
  intros Hi. unfold handleUndo.
  by destruct (Z.gtb_spec (historyIndex s) 0); [lia|].
Qed.

Lemma handleRedo_steps s :
  initialized s -> historyIndex s < Z.of_nat (length (history s)) - 1 ->
  exists snapshot,
    history s !! Z.to_nat (historyIndex s + 1) = Some snapshot
    ∧ handleRedo s
      = Ok (setTasks snapshot (setHistoryIndex (historyIndex s + 1) s)).
Proof.
  intros [_ Hi] Hlt.
  destruct (lookup_lt_is_Some_2 (history s) (Z.to_nat (historyIndex s + 1)))
    as [snapshot Hsnap]; [lia|].
  exists snapshot. split; [done|]. unfold handleRedo.
  destruct (Z.ltb_spec (historyIndex s) (Z.of_nat (length (history s)) - 1));
    [|lia].
  by rewrite index_lookup, Hsnap by lia.
Qed.

Lemma handleRedo_stays s :
  Z.of_nat (length (history s)) - 1 <= historyIndex s -> handleRedo s = Ok s.
Proof.
  intros Hi. unfold handleRedo.
  by destruct (Z.ltb_spec (historyIndex s) (Z.of_nat (length (history s)) - 1));
    [lia|].
Qed.

Lemma handleUndo_initialized s :
  initialized s -> exists s', handleUndo s = Ok s' ∧ initialized s'.
Proof.
  intros Hs. destruct (Z.le_gt_cases (historyIndex s) 0) as [Hle|Hgt].
  - exists s. by rewrite handleUndo_stays.
  - destruct (handleUndo_steps s Hs) as (snapshot & _ & ->); [lia|].
    eexists; split; [done|]. destruct Hs as [Hne Hi]. split; cbn; [done|lia].
Qed.

Lemma handleRedo_initialized s :
  initialized s -> exists s', handleRedo s = Ok s' ∧ initialized s'.
Proof.
  intros Hs.
  destruct (Z.le_gt_cases (Z.of_nat (length (history s)) - 1) (historyIndex s))
    as [Hle|Hgt].
  - exists s. by rewrite handleRedo_stays.
  - destruct (handleRedo_steps s Hs) as (snapshot & _ & ->); [lia|].
    eexists; split; [done|]. destruct Hs as [Hne Hi]. split; cbn; [done|lia].
Qed.

(** When nothing was loaded (empty storage and a failed fetch) the history
    is never seeded: the first push creates its only entry, and undo has no
    entry to step back to. *)
Lemma handleUndo_unseeded newTasks msg icon :
  history (push newTasks msg icon initialState) = [newTasks]
  ∧ handleUndo (push newTasks msg icon initialState)
    = Ok (push newTasks msg icon initialState).
Proof. split; [reflexivity|]. by apply handleUndo_stays. Qed.
End HistoryFacts.

Section Reachability.
Implicit Types (s : State) (newTasks : list Task).

Lemma loadTasks_coherent data s : coherent (loadTasks data s).
Proof. split; [split|]; cbn; [done|lia|done]. Qed.

Lemma push_entries s newTasks msg icon :
  initialized s ->
  history (push newTasks msg icon s)
  = take (Z.to_nat (historyIndex s + 1)) (history s) ++ [newTasks].
Proof.
  intros [_ Hi]. apply (addToHistory_entries (setTasks newTasks s)). cbn. lia.
Qed.

Lemma push_cursor s newTasks msg icon :
  initialized s -> historyIndex (push newTasks msg icon s) = historyIndex s + 1.
Proof.
  intros Hs.
  pose proof (addToHistory_length (setTasks newTasks s) newTasks Hs) as Hlen.
  change (historyIndex (push newTasks msg icon s))
    with (Z.of_nat (length (history (addToHistory newTasks (setTasks newTasks s)))) - 1).
  rewrite Hlen. cbn. lia.
Qed.

Lemma push_initialized s newTasks msg icon :
  initialized s -> initialized (push newTasks msg icon s).
Proof. intros Hs. by apply (addToHistory_initialized (setTasks newTasks s)). Qed.

Lemma push_coherent s newTasks msg icon :
  initialized s -> coherent (push newTasks msg icon s).
Proof.
  intros Hs. split; [by apply push_initialized|].
  rewrite push_entries, push_cursor by done. destruct Hs as [_ Hi].
  rewrite index_lookup by lia.
  rewrite lookup_app_r by (rewrite length_take; lia).
  rewrite length_take.
  by replace (_ - _)%nat with 0%nat by lia.
Qed.

Lemma handleUndo_coherent s s' :
  coherent s -> handleUndo s = Ok s' -> coherent s'.
Proof.
  intros [Hs Hcur] Hundo.
  destruct (Z.le_gt_cases (historyIndex s) 0) as [Hle|Hgt].
  - rewrite handleUndo_stays in Hundo by done. by simplify_eq.
  - destruct (handleUndo_steps s Hs) as (snapshot & Hsnap & Heq); [lia|].
    rewrite Heq in Hundo. simplify_eq. destruct Hs as [Hne Hi].
    split; [split; cbn; [done|lia]|].
    cbn. by rewrite index_lookup by lia.
Qed.

Lemma handleRedo_coherent s s' :
  coherent s -> handleRedo s = Ok s' -> coherent s'.
Proof.
  intros [Hs Hcur] Hredo.
  destruct (Z.le_gt_cases (Z.of_nat (length (history s)) - 1) (historyIndex s))
    as [Hle|Hgt].
  - rewrite handleRedo_stays in Hredo by done. by simplify_eq.
  - destruct (handleRedo_steps s Hs) as (snapshot & Hsnap & Heq); [lia|].
    rewrite Heq in Hredo. simplify_eq. destruct Hs as [Hne Hi].
    split; [split; cbn; [done|lia]|].
    cbn. by rewrite index_lookup by lia.
Qed.

Lemma step_coherent s s' : coherent s -> step s s' -> coherent s'.
Proof.
  intros Hs Hstep. destruct Hstep.
  - apply push_coherent, Hs.
  - by eapply handleUndo_coherent.
  - by eapply handleRedo_coherent.
Qed.

(** Creating, editing and (confirmed) deleting a task are push steps. *)
Lemma handlers_step s now draft updatedTask taskId :
  step s (handleCreateTask now draft s)
  ∧ step s (handleEditTask updatedTask s)
  ∧ step s (handleDeleteTask true taskId s).
Proof. repeat split; apply step_push. Qed.

Lemma reachable_coherent s0 s : coherent s0 -> rtc step s0 s -> coherent s.
Proof. intros Hs0 Hrtc. induction Hrtc; eauto using step_coherent. Qed.

Lemma undo_after_push s newTasks msg icon :
  coherent s ->
  exists s', handleUndo (push newTasks msg icon s) = Ok s'
             ∧ tasks s' = tasks s ∧ historyIndex s' = historyIndex s.
Proof.
  intros [Hs Hcur].
  pose proof (push_initialized s newTasks msg icon Hs) as Hpushed.
  pose proof (push_cursor s newTasks msg icon Hs) as Hidx.
  destruct Hs as [Hne Hi].
  destruct (handleUndo_steps _ Hpushed) as (snapshot & Hsnap & ->); [lia|].
  eexists. split; [done|]. cbn [tasks historyIndex setTasks setHistoryIndex].
  split; [|lia].
  rewrite push_entries, Hidx in Hsnap by done.
  rewrite index_lookup in Hcur by lia.
  rewrite lookup_app_l in Hsnap by (rewrite length_take; lia).
  rewrite lookup_take_lt in Hsnap by lia.
  replace (Z.to_nat (historyIndex s + 1 - 1)) with (Z.to_nat (historyIndex s))
    in Hsnap by lia.
  congruence.
Qed.

Lemma redo_after_undo s :
  coherent s -> 0 < historyIndex s ->
  exists s1, handleUndo s = Ok s1 ∧ s1 ≠ s ∧ handleRedo s1 = Ok s.
Proof.
  intros [Hs Hcur] Hpos.
  destruct (handleUndo_steps s Hs Hpos) as (snapshot & Hsnap & ->).
  eexists. split; [done|]. split.
  { intros Heq. apply (f_equal historyIndex) in Heq. cbn in Heq. lia. }
  destruct Hs as [Hne Hi].
  set (s1 := setTasks snapshot (setHistoryIndex (historyIndex s - 1) s)).
  destruct (handleRedo_steps s1) as (snapshot' & Hsnap' & ->).
  { split; cbn; [done|lia]. }
  { cbn. lia. }
  cbn in Hsnap'. rewrite index_lookup in Hcur by lia.
  replace (Z.to_nat (historyIndex s - 1 + 1)) with (Z.to_nat (historyIndex s))
    in Hsnap' by lia.
  assert (snapshot' = tasks s) as -> by congruence.
  subst s1. destruct s. unfold setTasks, setHistoryIndex. cbn.
  do 2 f_equal. lia.
Qed.

Lemma undos_initialized k s0 s :
  initialized s0 -> undos k s0 = Ok s -> initialized s.
Proof.
  revert s0. induction k as [|k IH]; intros s0 Hs0 Hk; cbn in Hk.
  - by simplify_eq.
  - destruct (handleUndo_initialized s0 Hs0) as (s1 & Heq & Hs1).
    rewrite Heq in Hk. cbn in Hk. eauto.
Qed.
End Reachability.

(** C1. In an initialized history (entries non-empty, cursor a valid index)
    each of push, undo and redo ends in a state whose cursor is again a valid
    index into the entries, and push keeps exactly the entries up to the
    cursor, dropping every later one, before it appends the new entry. *)
Theorem history_cursor_valid (s : State) :
  initialized s ->
  (forall newTasks,
      initialized (addToHistory newTasks s)
      ∧ history (addToHistory newTasks s)
        = take (Z.to_nat (historyIndex s + 1)) (history s) ++ [newTasks])
  ∧ (exists s', handleUndo s = Ok s' ∧ initialized s')
  ∧ (exists s', handleRedo s = Ok s' ∧ initialized s').
Proof.
  intros Hs. split; [|split].
  - intros newTasks. split.
    + by apply addToHistory_initialized.
    + apply addToHistory_entries. destruct Hs as [_ ?]. lia.
  - by apply handleUndo_initialized.
  - by apply handleRedo_initialized.
Qed.

Lemma history_cursor_valid_witness :
  (forall newTasks,
      initialized (addToHistory newTasks Sample.loaded)
      ∧ history (addToHistory newTasks Sample.loaded)
        = take (Z.to_nat (historyIndex Sample.loaded + 1))
               (history Sample.loaded) ++ [newTasks])
  ∧ (exists s', handleUndo Sample.loaded = Ok s' ∧ initialized s')
  ∧ (exists s', handleRedo Sample.loaded = Ok s' ∧ initialized s').
Proof.
  apply (history_cursor_valid Sample.loaded).
  split; [discriminate | cbn; lia].
Defined.



(** C3. In a history state reached by one or more undo actions, a push
    truncates the entries to the prefix that ends at the cursor, appends the
    new snapshot and sets the cursor to the last index; a redo that follows
    changes nothing. *)
Theorem push_after_undo_discards_redo (s0 s : State) (k : nat)
    (newTasks : list Task) :
  initialized s0 -> (1 <= k)%nat -> undos k s0 = Ok s ->
  history (addToHistory newTasks s)
  = take (Z.to_nat (historyIndex s + 1)) (history s) ++ [newTasks]
  ∧ historyIndex (addToHistory newTasks s)
    = Z.of_nat (length (history (addToHistory newTasks s))) - 1
  ∧ Z.of_nat (length (history (addToHistory newTasks s))) = historyIndex s + 2
  ∧ handleRedo (addToHistory newTasks s) = Ok (addToHistory newTasks s).
Proof.
  intros Hs0 _ Hk.
  pose proof (undos_initialized k s0 s Hs0 Hk) as Hs.
  split; [|split; [|split]].
  - apply addToHistory_entries. destruct Hs as [_ ?]. lia.
  - apply addToHistory_cursor.
  - by apply addToHistory_length.
  - apply handleRedo_stays. rewrite addToHistory_cursor. lia.
Qed.

Lemma push_after_undo_discards_redo_witness :
  history (addToHistory [Sample.call] Sample.undone) = [[Sample.milk]; [Sample.call]]
  ∧ handleRedo (addToHistory [Sample.call] Sample.undone)
    = Ok (addToHistory [Sample.call] Sample.undone).
Proof.
  destruct (push_after_undo_discards_redo Sample.created Sample.undone 1
              [Sample.call]) as (Hentries & _ & _ & Hredo).
  - split; [discriminate | split; [discriminate | reflexivity]].
  - lia.
  - reflexivity.
  - split; [exact Hentries | exact Hredo].
Defined.


(** ** Editing a task *)

Section EditFacts.
Implicit Types (s : State) (updatedTask task : Task).

Lemma handleEditTask_push updatedTask s :
  handleEditTask updatedTask s
  = push (map (fun task =>
                 if Js.strict_eq (task !! "id") (updatedTask !! "id")
                 then updatedTask else task) (tasks s))
         "Task updated successfully!" None s.
Proof. reflexivity. Qed.

Lemma edit_map_unmatched updatedTask (l : list Task) :
  (forall task, task ∈ l -> task !! "id" ≠ updatedTask !! "id") ->
  map (fun task =>
         if Js.strict_eq (task !! "id") (updatedTask !! "id")
         then updatedTask else task) l = l.
Proof.
  intros Hno. induction l as [|task l IH]; [done|]. cbn. f_equal.
  - unfold Js.strict_eq. rewrite bool_decide_eq_false_2; [done|].
    apply Hno. by left.
  - apply IH. intros task' Hin. apply Hno. by right.
Qed.
End EditFacts.

(** C4, as the code has it. An edit whose id matches no task leaves the
    task list as it was, yet it is not silent: the (unchanged) list is pushed
    as a new history entry and the success notification is emitted all the
    same. In general the edit replaces every task whose id equals the updated
    task's id, keeps all others in place, pushes exactly one history entry
    holding the resulting list, and appends exactly one success
    notification. *)
Theorem handleEditTask_effect (updatedTask : Task) (s : State) :
  let s' := handleEditTask updatedTask s in
  length (tasks s') = length (tasks s)
  ∧ (forall (i : nat) task,
        tasks s !! i = Some task ->
        tasks s' !! i
        = Some (if decide (task !! "id" = updatedTask !! "id")
                then updatedTask else task))
  ∧ history s' = Js.slice (history s) 0 (historyIndex s + 1) ++ [tasks s']
  ∧ historyIndex s' = Z.of_nat (length (history s')) - 1
  ∧ toasts s' = toasts s ++ [mkToast "Task updated successfully!" None]
  ∧ ((forall task, task ∈ tasks s -> task !! "id" ≠ updatedTask !! "id") ->
     tasks s' = tasks s).
Proof.
  cbn zeta. rewrite handleEditTask_push. repeat split.
  - cbn. by rewrite length_map.
  - intros i task Hi. cbn. rewrite list_lookup_fmap, Hi. cbn. f_equal.
    unfold Js.strict_eq. by destruct (decide _); [rewrite bool_decide_eq_true_2
                                                 |rewrite bool_decide_eq_false_2].
  - intros Hno. cbn. by apply edit_map_unmatched.
Qed.

Lemma handleEditTask_effect_witness :
  tasks (handleEditTask Sample.report Sample.loaded) = tasks Sample.loaded.
Proof.
  apply (handleEditTask_effect Sample.report Sample.loaded).
  intros task Hin. apply list_elem_of_singleton in Hin. subst task.
  vm_compute. discriminate.
Defined.

(** C4, counterexample to the claim as stated: no task of the loaded list
    has the id of the updated task, and still the edit lengthens the history
    and emits a notification. *)
Lemma handleEditTask_unmatched_not_silent :
  (forall task, task ∈ tasks Sample.loaded ->
                task !! "id" ≠ Sample.report !! "id")
  ∧ history Sample.loaded = [[Sample.milk]]
  ∧ history (handleEditTask Sample.report Sample.loaded)
    = [[Sample.milk]; [Sample.milk]]
  ∧ toasts Sample.loaded = []
  ∧ toasts (handleEditTask Sample.report Sample.loaded)
    = [mkToast "Task updated successfully!" None]
  ∧ ¬ (tasks (handleEditTask Sample.report Sample.loaded) = tasks Sample.loaded
       ∧ history (handleEditTask Sample.report Sample.loaded)
         = history Sample.loaded
       ∧ toasts (handleEditTask Sample.report Sample.loaded)
         = toasts Sample.loaded).
Proof.
  assert (Hno : forall task, task ∈ tasks Sample.loaded ->
                             task !! "id" ≠ Sample.report !! "id").
  { intros task Hin. apply list_elem_of_singleton in Hin. subst task.
    vm_compute. discriminate. }
  assert (Hhistory : history (handleEditTask Sample.report Sample.loaded)
                     = [[Sample.milk]; [Sample.milk]]).
  { change (history (handleEditTask Sample.report Sample.loaded))
      with (Js.slice (history Sample.loaded) 0 (historyIndex Sample.loaded + 1)
            ++ [map (fun task =>
                       if Js.strict_eq (task !! "id") (Sample.report !! "id")
                       then Sample.report else task) (tasks Sample.loaded)]).
    by rewrite edit_map_unmatched. }
  split; [exact Hno|]. split; [reflexivity|]. split; [exact Hhistory|].
  split; [reflexivity|]. split; [reflexivity|].
  intros (_ & Heq & _). rewrite Hhistory in Heq. discriminate.
Qed.


(** ** Custom-field backfill *)

Section BackfillFacts.
Implicit Types (task : Task) (field : Field) (fields : list Field).

Lemma has_property_own k task v :
  task !! k = Some v -> Js.has_property k task = true.
Proof.
  intros Hk. unfold Js.has_property.
  rewrite bool_decide_eq_true_2; [done|]. by exists v.
Qed.

Lemma backfillField_keeps task field k v :
  task !! k = Some v -> backfillField task field !! k = Some v.
Proof.
  intros Hk. unfold backfillField.
  destruct (Js.has_property (field_name field) task) eqn:Hin; cbn; [done|].
  rewrite lookup_insert_ne; [done|]. intros Heq. rewrite Heq in Hin.
  by rewrite (has_property_own _ _ _ Hk) in Hin.
Qed.

Lemma backfillField_adds task field k v :
  task !! k = None -> backfillField task field !! k = Some v ->
  field_name field = k ∧ v = defaultValue (field_type field).
Proof.
  intros Hk. unfold backfillField.
  destruct (Js.has_property (field_name field) task); cbn; [congruence|].
  destruct (decide (field_name field = k)) as [->|Hne].
  - rewrite lookup_insert_eq. by intros [= <-].
  - rewrite lookup_insert_ne by done. congruence.
Qed.

Lemma backfill_keeps fields task k v :
  task !! k = Some v -> backfill fields task !! k = Some v.
Proof.
  revert task. induction fields as [|field fields IH]; intros task Hk; [done|].
  change (backfill fields (backfillField task field) !! k = Some v).
  by apply IH, backfillField_keeps.
Qed.

Lemma backfill_adds fields task k v :
  task !! k = None -> backfill fields task !! k = Some v ->
  exists field, field ∈ fields ∧ field_name field = k
                ∧ v = defaultValue (field_type field).
Proof.
  revert task. induction fields as [|field fields IH]; intros task Hk Hv.
  - cbn in Hv. congruence.
  - change (backfill fields (backfillField task field) !! k = Some v) in Hv.
    destruct (backfillField task field !! k) as [v'|] eqn:Hstep.
    + pose proof (backfill_keeps fields _ _ _ Hstep) as Hkept.
      assert (v' = v) as -> by congruence.
      destruct (backfillField_adds _ _ _ _ Hk Hstep) as [? ?].
      exists field. split; [by left|done].
    + destruct (IH _ Hstep Hv) as (field' & ? & ? & ?).
      exists field'. split; [by right|done].
Qed.
End BackfillFacts.

(** C9. Saving the custom fields leaves the history entries and the cursor
    untouched: the backfilled task list is stored without a history entry.
    An undo that follows therefore cannot bring back the list as it was
    before the backfill: with the cursor at 0 it changes nothing, and
    otherwise it moves to the entry before the cursor exactly as it would
    have done without the backfill. *)
Theorem handleCustomFieldsSave_skips_history (fields : list Field) (s : State) :
  history (handleCustomFieldsSave fields s) = history s
  ∧ historyIndex (handleCustomFieldsSave fields s) = historyIndex s
  ∧ (historyIndex s <= 0 ->
     handleUndo (handleCustomFieldsSave fields s)
     = Ok (handleCustomFieldsSave fields s))
  ∧ (forall s1, 0 < historyIndex s -> handleUndo s = Ok s1 ->
     handleUndo (handleCustomFieldsSave fields s)
     = Ok (setCustomFields fields s1)).
Proof.
  split; [reflexivity|]. split; [reflexivity|]. split.
  - intros Hle. by apply handleUndo_stays.
  - intros s1 Hpos. unfold handleUndo. cbn [historyIndex history
      handleCustomFieldsSave setTasks setCustomFields].
    destruct (Z.gtb_spec (historyIndex s) 0); [|lia].
    destruct (Js.index (history s) (historyIndex s - 1)); [|done].
    by intros [= <-].
Qed.

Lemma handleCustomFieldsSave_skips_history_witness :
  handleUndo (handleCustomFieldsSave [mkField 7 "done" "checkbox"] Sample.loaded)
  = Ok (handleCustomFieldsSave [mkField 7 "done" "checkbox"] Sample.loaded)
  ∧ handleUndo (handleCustomFieldsSave [mkField 7 "done" "checkbox"] Sample.created)
    = Ok (setCustomFields [mkField 7 "done" "checkbox"] Sample.undone).
Proof.
  split.
  - apply (handleCustomFieldsSave_skips_history _ Sample.loaded). by vm_compute.
  - apply (handleCustomFieldsSave_skips_history _ Sample.created);
      reflexivity.
Defined.

(** C10. The backfill keeps the number and the order of the tasks, never
    changes or removes a key a task already has (its [id], [title],
    [priority], [status] included), and every key it adds was absent and is
    the name of one of the saved fields, holding that field's default:
    [false] for a checkbox field, [0] for a number field, the empty string
    for a text field. *)
Theorem handleCustomFieldsSave_frame (fields : list Field) (s : State) :
  length (tasks (handleCustomFieldsSave fields s)) = length (tasks s)
  ∧ (forall (i : nat) task,
        tasks s !! i = Some task ->
        exists task',
          tasks (handleCustomFieldsSave fields s) !! i = Some task'
          ∧ (forall k v, task !! k = Some v -> task' !! k = Some v)
          ∧ (forall k v, task !! k = None -> task' !! k = Some v ->
               exists field, field ∈ fields ∧ field_name field = k
                             ∧ v = defaultValue (field_type field)))
  ∧ defaultValue "checkbox" = VBool false
  ∧ defaultValue "number" = VNum 0
  ∧ defaultValue "text" = VStr "".
Proof.
  split; [cbn; by rewrite length_map|]. split; [|done].
  intros i task Hi. exists (backfill fields task). split.
  - cbn. by rewrite list_lookup_fmap, Hi.
  - split; [apply backfill_keeps | apply backfill_adds].
Qed.

Lemma handleCustomFieldsSave_frame_witness :
  exists task',
    tasks (handleCustomFieldsSave [mkField 7 "done" "checkbox"] Sample.loaded)
      !! 0%nat = Some task'
    ∧ task' !! "title" = Some (VStr "Buy milk")
    ∧ exists field, field ∈ [mkField 7 "done" "checkbox"]
                    ∧ field_name field = "done"
                    ∧ VBool false = defaultValue (field_type field).
Proof.
  destruct (handleCustomFieldsSave_frame [mkField 7 "done" "checkbox"]
              Sample.loaded) as (_ & Htasks & _).
  destruct (Htasks 0%nat Sample.milk eq_refl) as (task' & Hlookup & Hkeep & Hadd).
  exists task'. split; [exact Hlookup|]. split.
  - apply Hkeep. reflexivity.
  - apply Hadd; [reflexivity|].
    cbn in Hlookup. injection Hlookup as <-. reflexivity.
Defined.


(** ** Field-name validation *)

Section ValidationFacts.
Implicit Types (c : ascii) (name : string) (fields : list Field).

Lemma is_letter_spec c : CustomFieldsModal.is_letter c = true <-> letter c.
Proof.
  unfold CustomFieldsModal.is_letter, letter, unit_in. cbn.
  rewrite orb_true_iff, !andb_true_iff, !N.leb_le. tauto.
Qed.

Lemma is_word_unit_spec c :
  CustomFieldsModal.is_word_unit c = true <-> word_unit c.
Proof.
  unfold CustomFieldsModal.is_word_unit, word_unit.
  rewrite !orb_true_iff, is_letter_spec. unfold unit_in. cbn.
  rewrite andb_true_iff, !N.leb_le, N.eqb_eq. intuition lia.
Qed.

Lemma all_units_spec (p : ascii -> bool) (P : ascii -> Prop) s :
  (forall c, p c = true <-> P c) ->
  CustomFieldsModal.all_units p s = true <-> Forall P (list_ascii_of_string s).
Proof.
  intros Hp. induction s as [|c s IH]; cbn.
  - split; [constructor|done].
  - rewrite andb_true_iff, Forall_cons, IH, Hp. tauto.
Qed.

Lemma identifier_test_spec name :
  CustomFieldsModal.identifier_test name = true <-> identifier_pattern name.
Proof.
  unfold identifier_pattern. destruct name as [|c rest]; cbn.
  - split; [done|]. by intros (? & ? & ? & _).
  - rewrite andb_true_iff, is_letter_spec,
      (all_units_spec _ word_unit) by apply is_word_unit_spec.
    split.
    + intros [? ?]. by exists c, rest.
    + intros (c' & rest' & [= <- <-] & ? & ?). done.
Qed.

Lemma duplicate_test_spec fields name :
  existsb (fun field =>
             String.eqb (Js.toLowerCase (field_name field))
                        (Js.toLowerCase name)) fields = true
  <-> duplicates fields name.
Proof.
  unfold duplicates. rewrite existsb_exists. split.
  - intros (field & Hin & Heq). exists field.
    by rewrite list_elem_of_In, <- String.eqb_eq.
  - intros (field & Hin & Heq). exists field.
    by rewrite <- list_elem_of_In, String.eqb_eq.
Qed.

Lemma validateFieldName_rejects_iff fields name :
  CustomFieldsModal.validateFieldName fields name ≠ ""
  <-> name = "" ∨ (String.length name < 2)%nat ∨ duplicates fields name
      ∨ ¬ identifier_pattern name.
Proof.
  unfold CustomFieldsModal.validateFieldName.
  destruct (String.eqb_spec name "") as [Hempty|Hfull]; [by intuition|].
  destruct (Z.ltb_spec (Z.of_nat (String.length name)) 2) as [Hshort|Hlong].
  { split; [|done]. intros _. right; left. lia. }
  destruct (existsb _ fields) eqn:Hdup.
  { apply duplicate_test_spec in Hdup. by intuition. }
  assert (¬ duplicates fields name) as Hnodup.
  { rewrite <- duplicate_test_spec. by rewrite Hdup. }
  destruct (CustomFieldsModal.identifier_test name) eqn:Hpat; cbn.
  - apply identifier_test_spec in Hpat. split; [done|].
    intros [?|[?|[?|?]]]; [done|lia|done|done].
  - split; [|done]. intros _. do 3 right.
    rewrite <- identifier_test_spec. by rewrite Hpat.
Qed.
End ValidationFacts.

(** C8. [validateFieldName] returns a message (it is a total function, it
    cannot throw), and the message is non-empty exactly when the name is
    empty, or shorter than 2 characters, or equal up to case to the name of a
    pending field, or not of the shape letter-then-letters/digits/underscores.
    In particular ["ab"] is accepted (whenever no pending field is called
    that up to case), ["a"] and ["1field"] are rejected, and so is every
    duplicate up to case. When the pending name is accepted,
    [handleAddField] appends the descriptor [{id: now, name, type}]; when it
    is rejected the field list stays as it is and the message is shown. *)
Theorem validateFieldName_rejects (fields : list Field) (name : string) :
  (CustomFieldsModal.validateFieldName fields name ≠ ""
   <-> name = "" ∨ (String.length name < 2)%nat ∨ duplicates fields name
       ∨ ¬ identifier_pattern name)
  ∧ CustomFieldsModal.validateFieldName [] "ab" = ""
  ∧ (¬ duplicates fields "ab" ->
     CustomFieldsModal.validateFieldName fields "ab" = "")
  ∧ CustomFieldsModal.validateFieldName fields "a" ≠ ""
  ∧ (duplicates fields name ->
     CustomFieldsModal.validateFieldName fields name ≠ "")
  ∧ CustomFieldsModal.validateFieldName fields "1field" ≠ ""
  ∧ (forall now type err,
        let s := CustomFieldsModal.mkState
                   fields (CustomFieldsModal.mkNewField name type) err in
        (CustomFieldsModal.validateFieldName fields name = "" ->
         CustomFieldsModal.fields (CustomFieldsModal.handleAddField now s)
         = fields ++ [mkField now name type])
        ∧ (CustomFieldsModal.validateFieldName fields name ≠ "" ->
           CustomFieldsModal.fields (CustomFieldsModal.handleAddField now s)
           = fields
           ∧ CustomFieldsModal.error (CustomFieldsModal.handleAddField now s)
             = CustomFieldsModal.validateFieldName fields name)).
Proof.
  split; [apply validateFieldName_rejects_iff|].
  split; [reflexivity|]. split.
  { intros Hnodup.
    destruct (decide (CustomFieldsModal.validateFieldName fields "ab" = ""))
      as [|Hrej]; [done|].
    apply validateFieldName_rejects_iff in Hrej
      as [?|[Hlen|[?|Hpat]]]; [done|cbn in Hlen; lia|done|].
    exfalso. apply Hpat, identifier_test_spec. reflexivity. }
  split.
  { apply validateFieldName_rejects_iff. right; left. cbn. lia. }
  split.
  { intros Hdup. apply validateFieldName_rejects_iff. tauto. }
  split.
  { apply validateFieldName_rejects_iff. do 3 right.
    rewrite <- identifier_test_spec. by vm_compute. }
  intros now type err s. unfold CustomFieldsModal.handleAddField. subst s.
  cbn [CustomFieldsModal.fields CustomFieldsModal.newField
       CustomFieldsModal.newField_name CustomFieldsModal.newField_type].
  split.
  - intros ->. reflexivity.
  - intros Hrej.
    destruct (String.eqb_spec (CustomFieldsModal.validateFieldName fields name) "");
      [done|]. by cbn.
Qed.

Lemma validateFieldName_rejects_witness :
  CustomFieldsModal.validateFieldName [mkField 7 "done" "checkbox"] "ab" = ""
  ∧ CustomFieldsModal.validateFieldName [mkField 7 "done" "checkbox"] "DONE" ≠ ""
  ∧ CustomFieldsModal.fields
      (CustomFieldsModal.handleAddField 8
         (CustomFieldsModal.mkState [mkField 7 "done" "checkbox"]
            (CustomFieldsModal.mkNewField "due_date" "text") ""))
    = [mkField 7 "done" "checkbox"; mkField 8 "due_date" "text"].
Proof.
  split; [|split].
  - apply (validateFieldName_rejects [mkField 7 "done" "checkbox"] "DONE").
    intros (field & Hin & Heq). apply list_elem_of_singleton in Hin.
    subst field. discriminate Heq.
  - apply (validateFieldName_rejects [mkField 7 "done" "checkbox"] "DONE").
    exists (mkField 7 "done" "checkbox"). split; [by left|reflexivity].
  - apply (validateFieldName_rejects [mkField 7 "done" "checkbox"] "due_date").
    reflexivity.
Defined.


(** ** Pagination *)

Section PaginationFacts.
Implicit Types (sorted : list Task) (pagination : Pagination).

Lemma paginatedTasks_take_drop pagination sorted :
  1 <= currentPage pagination -> 1 <= pageSize pagination ->
  paginatedTasks pagination sorted
  = take (Z.to_nat (pageSize pagination))
         (drop (Z.to_nat ((currentPage pagination - 1) * pageSize pagination))
               sorted).
Proof.
  intros Hp Hs. unfold paginatedTasks. rewrite slice_take_drop by nia.
  do 2 f_equal. lia.
Qed.

Lemma totalPages_ceiling pagination sorted :
  1 <= pageSize pagination ->
  exists n,
    totalPages pagination sorted = Some n
    ∧ (n - 1) * pageSize pagination < Z.of_nat (length sorted)
                                   <= n * pageSize pagination.
Proof.
  intros Hs. unfold totalPages.
  destruct (Z.eqb_spec (pageSize pagination) 0); [lia|].
  eexists. split; [done|].
  pose proof (Z.div_mod (- Z.of_nat (length sorted)) (pageSize pagination)).
  pose proof (Z.mod_pos_bound (- Z.of_nat (length sorted)) (pageSize pagination)).
  nia.
Qed.
End PaginationFacts.

(** C6. For a page number [p >= 1] and a page size [s >= 1] the page holds
    exactly the elements at indices [(p-1)*s, p*s) of the sorted list, in
    order (its [i]-th element is element [(p-1)*s + i] for [i < s], and it has
    no element at [i >= s]), and [totalPages] is the ceiling of
    [length / s]: the integer [n] with [(n-1)*s < length <= n*s]. With 25
    tasks and page size 10, page 1 is the 10 elements at [0,10), page 3 the 5
    elements at [20,25), and there are 3 pages. *)
Theorem paginatedTasks_slice (sorted : list Task) :
  (forall pagination,
      1 <= currentPage pagination -> 1 <= pageSize pagination ->
      (forall i : nat,
          paginatedTasks pagination sorted !! i
          = if decide (Z.of_nat i < pageSize pagination)
            then sorted !! (Z.to_nat ((currentPage pagination - 1)
                                      * pageSize pagination) + i)%nat
            else None)
      ∧ exists n,
          totalPages pagination sorted = Some n
          ∧ (n - 1) * pageSize pagination < Z.of_nat (length sorted)
                                         <= n * pageSize pagination)
  ∧ (length sorted = 25%nat ->
     paginatedTasks (mkPagination 1 10) sorted = take 10 sorted
     ∧ length (paginatedTasks (mkPagination 1 10) sorted) = 10%nat
     ∧ paginatedTasks (mkPagination 3 10) sorted = drop 20 sorted
     ∧ length (paginatedTasks (mkPagination 3 10) sorted) = 5%nat
     ∧ totalPages (mkPagination 1 10) sorted = Some 3
     ∧ totalPages (mkPagination 3 10) sorted = Some 3).
Proof.
  split.
  - intros pagination Hp Hs. split; [|by apply totalPages_ceiling].
    intros i. rewrite paginatedTasks_take_drop by done.
    destruct (decide (Z.of_nat i < pageSize pagination)).
    + rewrite lookup_take_lt by lia. apply lookup_drop.
    + apply lookup_take_ge. lia.
  - intros Hlen.
    assert (paginatedTasks (mkPagination 1 10) sorted = take 10 sorted) as H1.
    { by rewrite paginatedTasks_take_drop by (cbn; lia). }
    assert (paginatedTasks (mkPagination 3 10) sorted = drop 20 sorted) as H3.
    { rewrite paginatedTasks_take_drop by (cbn; lia). cbn.
      apply take_ge. rewrite length_drop. lia. }
    rewrite H1, H3, length_take, length_drop, Hlen. unfold totalPages. cbn.
    rewrite Hlen. done.
Qed.

Lemma paginatedTasks_slice_witness :
  paginatedTasks (mkPagination 3 10) (replicate 25 Sample.milk)
  = replicate 5 Sample.milk
  ∧ paginatedTasks (mkPagination 2 10)
      [Sample.milk; Sample.report; Sample.call] !! 0%nat = None.
Proof.
  split.
  - destruct (paginatedTasks_slice (replicate 25 Sample.milk)) as [_ Hpages].
    destruct (Hpages eq_refl) as (_ & _ & -> & _). reflexivity.
  - destruct (paginatedTasks_slice [Sample.milk; Sample.report; Sample.call])
      as [Hslice _].
    destruct (Hslice (mkPagination 2 10)) as [-> _]; [cbn; lia..|].
    reflexivity.
Defined.


(** ** Filtering *)

Section StringFacts.
Implicit Types (s sub pre post x y : string).
Local Arguments String.append !_ _ / : simpl nomatch.

Lemma prefix_spec sub s :
  String.prefix sub s = true <-> exists post, s = sub +:+ post.
Proof.
  revert s. induction sub as [|c sub IH]; intros s.
  - split; [by exists s|by destruct s].
  - destruct s as [|d s]; cbn.
    + split; [done|]. by intros [? [=]].
    + destruct (Ascii.ascii_dec c d) as [->|Hne].
      * rewrite IH. split; intros [post Hpost]; exists post; cbn in *; congruence.
      * split; [done|]. intros [post Hpost]. cbn in Hpost. congruence.
Qed.

Lemma includes_spec s sub :
  Js.includes s sub = true <-> exists pre post, s = pre +:+ sub +:+ post.
Proof.
  induction s as [|c s IH].
  - unfold Js.includes. rewrite orb_false_r, prefix_spec. split.
    + intros [post Hpost]. by exists "", post.
    + intros (pre & post & Heq). destruct pre; [|done]. by exists post.
  - change (Js.includes (String c s) sub)
      with (String.prefix sub (String c s) || Js.includes s sub).
    rewrite orb_true_iff, prefix_spec, IH. split.
    + intros [[post Hpost]|(pre & post & Hs)].
      * by exists "", post.
      * exists (String c pre), post. cbn. by rewrite Hs.
    + intros (pre & post & Heq). destruct pre as [|c' pre]; cbn in Heq.
      * left. by exists post.
      * right. exists pre, post. congruence.
Qed.



End StringFacts.

Section FilterFacts.
Implicit Types (filters : Filters) (task : Task) (tasks : list Task).

Lemma strict_eq_spec (a b : option value) : Js.strict_eq a b = true <-> a = b.
Proof. unfold Js.strict_eq. apply bool_decide_eq_true. Qed.

Lemma matchesFilters_returns filters task :
  has_title task -> matchesFilters filters task = Ok (passes filters task).
Proof.
  intros [title Htitle]. unfold passes, matchesFilters. by rewrite Htitle.
Qed.


Lemma filter_total {A} (f : A -> result bool) (keep : A -> bool) (arr : list A) :
  (forall x, x ∈ arr -> f x = Ok (keep x)) ->
  Js.filter f arr = Ok (List.filter keep arr).
Proof.
  induction arr as [|x arr IH]; intros Hf; [done|]. cbn.
  rewrite (Hf x) by (by left). cbn.
  rewrite IH by (intros y Hy; apply Hf; by right). done.
Qed.

Lemma filter_ext_in {A} (f g : A -> bool) (l : list A) :
  (forall x, x ∈ l -> f x = g x) -> List.filter f l = List.filter g l.
Proof.
  induction l as [|x l IH]; intros Hfg; [done|]. cbn.
  rewrite (Hfg x) by (by left).
  rewrite IH by (intros y Hy; apply Hfg; by right). done.
Qed.

Lemma filteredTasks_passes filters tasks :
  Forall has_title tasks ->
  filteredTasks filters tasks = Ok (List.filter (passes filters) tasks).
Proof.
  intros Htitles. apply filter_total. intros task Hin.
  apply matchesFilters_returns. by eapply Forall_forall in Htitles.
Qed.
End FilterFacts.



(** ** Sorting *)

Section OrderFacts.
Implicit Types (x y z : string).

Lemma compare_refl x : String.compare x x = Eq.
Proof.
  pose proof (String.compare_antisym x x) as Hanti.
  by destruct (String.compare x x).
Qed.

Lemma ltb_le_ne x y : String.ltb x y = true <-> String.le x y ∧ x ≠ y.
Proof.
  unfold String.ltb, String.le, String.leb.
  destruct (String.compare x y) eqn:Hcmp; cbn.
  - apply String.compare_eq_iff in Hcmp. by intuition.
  - split; [|done]. intros _. split; [done|]. intros ->.
    by rewrite compare_refl in Hcmp.
  - by intuition.
Qed.

Lemma ltb_trans x y z :
  String.ltb x y = true -> String.ltb y z = true -> String.ltb x z = true.
Proof.
  rewrite !ltb_le_ne. intros [Hxy Hne] [Hyz Hne']. split.
  - by etrans.
  - intros ->. apply Hne. by apply (anti_symm String.le).
Qed.

Lemma ltb_asym x y : String.ltb x y = true -> String.ltb y x = true -> False.
Proof.
  rewrite !ltb_le_ne. intros [Hxy Hne] [Hyx _].
  apply Hne. by apply (anti_symm String.le).
Qed.

Lemma ltb_total x y :
  x ≠ y -> String.ltb x y = true ∨ String.ltb y x = true.
Proof.
  intros Hne. rewrite !ltb_le_ne.
  destruct (total String.le x y); [left|right]; by split.
Qed.
End OrderFacts.

Section SortFacts.
Context {A : Type} (cmp : A -> A -> Z).
Implicit Types (x y : A) (l : list A).

Lemma sort_insert_Permutation x l : Js.sort_insert cmp x l ≡ₚ x :: l.
Proof.
  induction l as [|y l IH]; cbn; [done|].
  destruct (cmp x y <=? 0); [done|]. rewrite IH. apply Permutation_swap.
Qed.

Lemma sort_Permutation l : Js.sort cmp l ≡ₚ l.
Proof.
  induction l as [|x l IH]; [done|].
  change (Js.sort cmp (x :: l)) with (Js.sort_insert cmp x (Js.sort cmp l)).
  by rewrite sort_insert_Permutation, IH.
Qed.

Lemma sort_insert_HdRel (R : relation A) x y l :
  R y x -> HdRel R y l -> HdRel R y (Js.sort_insert cmp x l).
Proof.
  intros Hyx Hhd. destruct l as [|z l]; cbn; [by constructor|].
  destruct (cmp x z <=? 0); constructor; [done|].
  by apply HdRel_inv in Hhd.
Qed.

(** Inserting into a sorted list keeps it sorted, provided the comparator's
    verdict on [x] against each element agrees with the order. *)
Lemma sort_insert_Sorted (R : relation A) x l :
  (forall y, y ∈ l -> if cmp x y <=? 0 then R x y else R y x) ->
  Sorted R l -> Sorted R (Js.sort_insert cmp x l).
Proof.
  intros Hcmp Hsorted. induction Hsorted as [|y l Hsorted IH Hhd]; cbn.
  - by repeat constructor.
  - pose proof (Hcmp y ltac:(by left)) as Hxy.
    destruct (cmp x y <=? 0).
    + constructor; [by constructor|by constructor].
    + constructor.
      * apply IH. intros z Hz. apply Hcmp. by right.
      * by apply sort_insert_HdRel.
Qed.
End SortFacts.

Section TitleSortFacts.
Variable StringToNumber : string -> option Z.
Implicit Types (a b task : Task) (l filtered : list Task).

Lemma handleSort_title_clicks :
  handleSort "title" (mkSortConfig None "asc") = byTitle "asc"
  ∧ handleSort "title" (byTitle "asc") = byTitle "desc".
Proof. split; reflexivity. Qed.

Lemma compareTasks_title direction a b ta tb :
  a !! "title" = Some (VStr ta) -> b !! "title" = Some (VStr tb) ->
  compareTasks StringToNumber (byTitle direction) a b
  = if String.ltb ta tb then (if String.eqb direction "asc" then -1 else 1)
    else if String.ltb tb ta then (if String.eqb direction "asc" then 1 else -1)
    else 0.
Proof.
  intros Ha Hb. unfold compareTasks, byTitle, Js.gt, Js.lt. cbn.
  by rewrite Ha, Hb.
Qed.

Lemma title_of_lookup task title :
  task !! "title" = Some (VStr title) -> title_of task = title.
Proof. intros Htitle. unfold title_of. by rewrite Htitle. Qed.

(** On two tasks with different string titles the ascending comparator puts
    the smaller title first, the descending one the larger. *)
Lemma compareTasks_verdict direction a b :
  has_title a -> has_title b -> a !! "title" ≠ b !! "title" ->
  if compareTasks StringToNumber (byTitle direction) a b <=? 0
  then (if String.eqb direction "asc" then title_before a b else title_before b a)
  else (if String.eqb direction "asc" then title_before b a else title_before a b).
Proof.
  intros [ta Ha] [tb Hb] Hne.
  rewrite (compareTasks_title direction a b ta tb Ha Hb).
  unfold title_before.
  rewrite (title_of_lookup a ta Ha), (title_of_lookup b tb Hb).
  assert (ta ≠ tb) as Hne' by congruence.
  destruct (String.ltb ta tb) eqn:Hab.
  - by destruct (String.eqb direction "asc").
  - destruct (ltb_total ta tb Hne') as [Hlt|Hlt]; [congruence|].
    rewrite Hlt. by destruct (String.eqb direction "asc").
Qed.

Lemma sortedTasks_Sorted direction l :
  Forall has_title l ->
  NoDup (map (fun task => task !! "title") l) ->
  Sorted (if String.eqb direction "asc" then title_before else flip title_before)
         (sortedTasks StringToNumber (byTitle direction) l).
Proof.
  induction l as [|x l IH]; intros Htitles Hdistinct.
  - constructor.
  - apply Forall_cons in Htitles as [Hx Hl].
    cbn in Hdistinct. apply NoDup_cons in Hdistinct as [Hfresh Hdistinct].
    change (sortedTasks StringToNumber (byTitle direction) (x :: l))
      with (Js.sort_insert (compareTasks StringToNumber (byTitle direction)) x
              (sortedTasks StringToNumber (byTitle direction) l)).
    apply sort_insert_Sorted; [|by apply IH].
    intros y Hy. unfold sortedTasks in Hy. rewrite sort_Permutation in Hy.
    assert (x !! "title" ≠ y !! "title") as Hne.
    { intros Heq. apply Hfresh. rewrite Heq.
      by apply (list_elem_of_fmap_2 (fun task : Task => task !! "title")). }
    pose proof (compareTasks_verdict direction x y Hx
                  ltac:(by eapply Forall_forall in Hl) Hne) as Hverdict.
    destruct (compareTasks _ _ x y <=? 0), (String.eqb direction "asc"); done.
Qed.

Lemma title_before_flip_trans : Transitive (flip title_before).
Proof. intros a b c Hba Hcb. unfold flip, title_before in *. by eapply ltb_trans. Qed.

Lemma filter_returns_subset {A} (f : A -> result bool) (arr kept : list A) :
  Js.filter f arr = Ok kept ->
  forall x, x ∈ kept -> exists verdict, f x = Ok verdict.
Proof.
  revert kept. induction arr as [|y arr IH]; intros kept Hfilter x Hx.
  - cbn in Hfilter. simplify_eq. by apply elem_of_nil in Hx.
  - cbn in Hfilter. destruct (f y) as [verdict|] eqn:Hy; [|done].
    cbn in Hfilter. destruct (Js.filter f arr) as [rest|]; [|done].
    cbn in Hfilter. simplify_eq.
    destruct verdict; [apply elem_of_cons in Hx as [->|Hx]|]; eauto.
Qed.

Lemma filteredTasks_has_title filters tasks filtered :
  filteredTasks filters tasks = Ok filtered -> Forall has_title filtered.
Proof.
  intros Hfilter. apply Forall_forall. intros task Hin.
  destruct (filter_returns_subset _ _ _ Hfilter task Hin) as [verdict Hv].
  unfold matchesFilters in Hv. unfold has_title.
  destruct (task !! "title") as [[| | |title]|]; try done. by exists title.
Qed.
End TitleSortFacts.

(** C7. On a filtered task list whose titles are pairwise distinct, sorting
    by ["title"] descending gives exactly the reverse of sorting the same
    list by ["title"] ascending. Whether or not titles tie, both results are
    permutations of the filtered list. *)
Theorem sortedTasks_title_desc_reverses (StringToNumber : string -> option Z)
    (filters : Filters) (tasks filtered : list Task) :
  filteredTasks filters tasks = Ok filtered ->
  (NoDup (map (fun task => task !! "title") filtered) ->
   sortedTasks StringToNumber (byTitle "desc") filtered
   = reverse (sortedTasks StringToNumber (byTitle "asc") filtered))
  ∧ sortedTasks StringToNumber (byTitle "asc") filtered ≡ₚ filtered
  ∧ sortedTasks StringToNumber (byTitle "desc") filtered ≡ₚ filtered.
Proof.
  intros Hfilter. split; [|split; apply sort_Permutation].
  intros Hdistinct.
  pose proof (filteredTasks_has_title _ _ _ Hfilter) as Htitles.
  pose proof (sortedTasks_Sorted StringToNumber "desc" filtered Htitles Hdistinct)
    as Hdesc.
  pose proof (sortedTasks_Sorted StringToNumber "asc" filtered Htitles Hdistinct)
    as Hasc.
  cbn in Hdesc, Hasc. apply Sorted_reverse in Hasc.
  apply (@Sorted_unique_strong _ (flip title_before) title_before_flip_trans);
    [|done|done|].
  - intros a b _ _ Hab Hba. exfalso. unfold flip, title_before in *.
    by eapply ltb_asym.
  - unfold sortedTasks. by rewrite reverse_Permutation, !sort_Permutation.
Qed.

Lemma sortedTasks_title_desc_reverses_witness :
  sortedTasks (fun _ => None) (byTitle "desc") [Sample.milk; Sample.call]
  = reverse (sortedTasks (fun _ => None) (byTitle "asc")
                         [Sample.milk; Sample.call]).
Proof.
  destruct (sortedTasks_title_desc_reverses (fun _ => None)
              (mkFilters "B" "all" "all")
              [Sample.milk; Sample.report; Sample.call]
              [Sample.milk; Sample.call]) as [Hrev _].
  - reflexivity.
  - apply Hrev. cbn. apply NoDup_cons. split.
    + intros Hin. apply list_elem_of_singleton in Hin. by vm_compute in Hin.
    + apply NoDup_singleton.
Defined.

(** ** Further properties of the history *)

Section HistoryMore.
Implicit Types (s : State) (k : nat).

Lemma redos_snoc k s : redos (S k) s = Js.bind (redos k s) handleRedo.
Proof.
  revert s. induction k as [|k IH]; intros s.
  - cbn. by destruct (handleRedo s).
  - change (redos (S (S k)) s) with (Js.bind (handleRedo s) (redos (S k))).
    change (redos (S k) s) with (Js.bind (handleRedo s) (redos k)).
    destruct (handleRedo s) as [s1|]; [|done]. cbn [Js.bind]. apply IH.
Qed.

Lemma handleUndo_steps_coherent s :
  coherent s -> 0 < historyIndex s ->
  exists s1, handleUndo s = Ok s1 ∧ coherent s1
             ∧ historyIndex s1 = historyIndex s - 1
             ∧ history s1 = history s ∧ handleRedo s1 = Ok s.
Proof.
  intros Hs Hpos.
  destruct (redo_after_undo s Hs Hpos) as (s1 & Hundo & _ & Hredo).
  exists s1. split; [done|]. split; [by eapply handleUndo_coherent|].
  destruct Hs as [Hs _].
  destruct (handleUndo_steps s Hs Hpos) as (snapshot & _ & Heq).
  rewrite Heq in Hundo. injection Hundo as <-. done.
Qed.
End HistoryMore.

(** X1. In every state reached from a seeded history by push, undo and redo
    actions the cursor is a valid index, the task list on display is the
    entry under the cursor, and both undo and redo return a state: neither
    ever reads an entry that is not there. *)
Theorem history_reachable_invariant (s0 s : State) :
  coherent s0 -> rtc step s0 s ->
  coherent s
  ∧ (exists s', handleUndo s = Ok s')
  ∧ (exists s', handleRedo s = Ok s').
Proof.
  intros Hs0 Hreach.
  pose proof (reachable_coherent s0 s Hs0 Hreach) as Hs.
  split; [done|]. destruct Hs as [Hs _]. split.
  - destruct (handleUndo_initialized s Hs) as (s' & ? & _). by exists s'.
  - destruct (handleRedo_initialized s Hs) as (s' & ? & _). by exists s'.
Qed.

Lemma history_reachable_invariant_witness :
  coherent Sample.created
  ∧ (exists s', handleUndo Sample.created = Ok s')
  ∧ (exists s', handleRedo Sample.created = Ok s').
Proof.
  apply (history_reachable_invariant Sample.loaded Sample.created).
  - split; [split; [discriminate | cbn; lia] | reflexivity].
  - apply rtc_once. exact (step_push Sample.loaded _ _ _).
Defined.

(** X2. An undo performed right after a redo that stepped forward returns
    the very state the redo started from. *)
Theorem undo_after_redo (s : State) :
  coherent s -> historyIndex s < Z.of_nat (length (history s)) - 1 ->
  exists s1, handleRedo s = Ok s1 ∧ s1 ≠ s ∧ handleUndo s1 = Ok s.
Proof.
  intros [Hs Hcur] Hlt.
  destruct (handleRedo_steps s Hs Hlt) as (snapshot & Hsnap & ->).
  eexists. split; [done|]. split.
  { intros Heq. apply (f_equal historyIndex) in Heq. cbn in Heq. lia. }
  destruct Hs as [Hne Hi].
  set (s1 := setTasks snapshot (setHistoryIndex (historyIndex s + 1) s)).
  destruct (handleUndo_steps s1) as (snapshot' & Hsnap' & ->).
  { split; cbn; [done|lia]. }
  { cbn. lia. }
  cbn in Hsnap'. rewrite index_lookup in Hcur by lia.
  replace (Z.to_nat (historyIndex s + 1 - 1)) with (Z.to_nat (historyIndex s))
    in Hsnap' by lia.
  assert (snapshot' = tasks s) as -> by congruence.
  subst s1. destruct s. unfold setTasks, setHistoryIndex. cbn.
  do 2 f_equal. lia.
Qed.

Lemma undo_after_redo_witness :
  exists s1, handleRedo Sample.undone = Ok s1 ∧ s1 ≠ Sample.undone
             ∧ handleUndo s1 = Ok Sample.undone.
Proof.
  apply (undo_after_redo Sample.undone).
  - split; [split; [discriminate | split; [discriminate | reflexivity]]
           | reflexivity].
  - reflexivity.
Defined.

(** X3. From a seeded history with the cursor at [c], [k <= c] undo actions
    in a row succeed and leave the cursor at [c - k], and [k] redo actions
    after them bring back exactly the state they started from. *)
Theorem undos_then_redos (s : State) (k : nat) :
  coherent s -> Z.of_nat k <= historyIndex s ->
  exists s', undos k s = Ok s'
             ∧ historyIndex s' = historyIndex s - Z.of_nat k
             ∧ redos k s' = Ok s.
Proof.
  revert s. induction k as [|k IH]; intros s Hs Hk.
  - exists s. cbn. split; [done|]. split; [lia|done].
  - destruct (handleUndo_steps_coherent s Hs) as (s1 & Hundo & Hs1 & Hidx & _ & Hredo);
      [lia|].
    destruct (IH s1 Hs1) as (s' & Hundos & Hidx' & Hredos); [lia|].
    exists s'. split; [|split].
    + cbn. by rewrite Hundo.
    + lia.
    + rewrite redos_snoc, Hredos. exact Hredo.
Qed.

Lemma undos_then_redos_witness :
  exists s', undos 1 Sample.created = Ok s'
             ∧ historyIndex s' = historyIndex Sample.created - Z.of_nat 1
             ∧ redos 1 s' = Ok Sample.created.
Proof.
  apply (undos_then_redos Sample.created 1).
  - split; [split; [discriminate | split; [discriminate | reflexivity]]
           | reflexivity].
  - by vm_compute.
Defined.

(** X4. Undo and redo only move the cursor, by at most one entry, and swap
    the task list on display: the history entries, the custom fields and the
    notifications emitted so far are left as they are. *)
Theorem undo_redo_frame (s s' : State) :
  handleUndo s = Ok s' ∨ handleRedo s = Ok s' ->
  history s' = history s
  ∧ customFields s' = customFields s
  ∧ toasts s' = toasts s
  ∧ historyIndex s - 1 <= historyIndex s' <= historyIndex s + 1.
Proof.
  unfold handleUndo, handleRedo. intros [Hundo|Hredo].
  - destruct (historyIndex s >? 0).
    + destruct (Js.index _ _); [|done]. injection Hundo as <-. cbn.
      repeat split; lia.
    + injection Hundo as <-. repeat split; lia.
  - destruct (historyIndex s <? _).
    + destruct (Js.index _ _); [|done]. injection Hredo as <-. cbn.
      repeat split; lia.
    + injection Hredo as <-. repeat split; lia.
Qed.

Lemma undo_redo_frame_witness :
  history Sample.undone = history Sample.created
  ∧ customFields Sample.undone = customFields Sample.created
  ∧ toasts Sample.undone = toasts Sample.created
  ∧ historyIndex Sample.created - 1 <= historyIndex Sample.undone
    <= historyIndex Sample.created + 1.
Proof.
  apply (undo_redo_frame Sample.created Sample.undone). left. reflexivity.
Defined.

(** X5. Undo bottoms out: from a seeded history, at least as many undo
    actions as the cursor's position end on the oldest entry, with the cursor
    at 0 and the entries untouched, however many more are asked for. *)
Theorem undos_bottom_out (s : State) (k : nat) :
  coherent s -> historyIndex s <= Z.of_nat k ->
  exists s', undos k s = Ok s'
             ∧ historyIndex s' = 0
             ∧ head (history s) = Some (tasks s')
             ∧ history s' = history s.
Proof.
  revert s. induction k as [|k IH]; intros s Hs Hk.
  - exists s. destruct Hs as [[_ Hi] Hcur].
    assert (historyIndex s = 0) as Hzero by lia.
    rewrite Hzero in Hcur. cbn in Hcur.
    split; [done|]. split; [done|]. split; [|done].
    by destruct (history s).
  - destruct (Z.le_gt_cases (historyIndex s) 0) as [Hle|Hgt].
    + destruct (IH s Hs) as (s' & Hundos & ?); [lia|].
      exists s'. split; [|done]. cbn. by rewrite handleUndo_stays.
    + destruct (handleUndo_steps_coherent s Hs) as (s1 & Hundo & Hs1 & Hidx & Hhist & _);
        [lia|].
      destruct (IH s1 Hs1) as (s' & Hundos & Hzero & Hhead & Hsame); [lia|].
      exists s'. rewrite <- Hhist. split; [|done]. cbn. by rewrite Hundo.
Qed.

Lemma undos_bottom_out_witness :
  exists s', undos 5 Sample.created = Ok s'
             ∧ historyIndex s' = 0
             ∧ head (history Sample.created) = Some (tasks s')
             ∧ history s' = history Sample.created.
Proof.
  apply (undos_bottom_out Sample.created 5).
  - split; [split; [discriminate | split; [discriminate | reflexivity]]
           | reflexivity].
  - by vm_compute.
Defined.

(** ** Loading *)

(** X6. Whenever task data arrives (a fetch that succeeded, however late, or
    a non-empty stored list) the task list becomes that data and the history
    is replaced by the single entry holding it, cursor 0: whatever was in the
    history before is dropped, and neither undo nor redo moves right after.
    An empty stored list and a failed fetch leave the state untouched. *)
Theorem loading_resets_history (data : list Task) (s : State) :
  let s' := Loading.fetchSettled (Some data) s in
  tasks s' = data ∧ history s' = [data] ∧ historyIndex s' = 0
  ∧ handleUndo s' = Ok s' ∧ handleRedo s' = Ok s'
  ∧ (data ≠ [] -> Loading.loadStored data s = s')
  ∧ Loading.loadStored [] s = s
  ∧ Loading.fetchSettled None s = s.
Proof.
  cbn zeta. repeat split.
  intros Hne. unfold Loading.loadStored.
  destruct data; [done|]. reflexivity.
Qed.

Lemma loading_resets_history_witness :
  Loading.loadStored [Sample.milk] Sample.created
  = Loading.fetchSettled (Some [Sample.milk]) Sample.created.
Proof.
  apply (loading_resets_history [Sample.milk] Sample.created). discriminate.
Defined.

(** X7. A history that was never seeded (no entries, cursor -1: the state
    after an empty stored list and a failed fetch) cannot take back its first
    push: the pushed list becomes the only entry, and undo returns the state
    unchanged, so the list on display before that push is out of reach. *)
Theorem unseeded_history_cannot_undo (s : State) (newTasks : list Task)
    (msg : string) (icon : option Icon) :
  history s = [] -> historyIndex s = -1 ->
  tasks (push newTasks msg icon s) = newTasks
  ∧ history (push newTasks msg icon s) = [newTasks]
  ∧ historyIndex (push newTasks msg icon s) = 0
  ∧ handleUndo (push newTasks msg icon s) = Ok (push newTasks msg icon s).
Proof.
  intros Hhist Hidx.
  assert (history (push newTasks msg icon s) = [newTasks]) as Hentries.
  { cbn. by rewrite Hhist, Hidx. }
  assert (historyIndex (push newTasks msg icon s) = 0) as Hcursor.
  { change (historyIndex (push newTasks msg icon s))
      with (Z.of_nat (length (history (push newTasks msg icon s))) - 1).
    by rewrite Hentries. }
  split; [done|]. split; [done|]. split; [done|].
  apply handleUndo_stays. lia.
Qed.

Lemma unseeded_history_cannot_undo_witness :
  handleUndo
    (handleCreateTask 5 Sample.milk
       (Loading.fetchSettled None (Loading.loadStored [] initialState)))
  = Ok (handleCreateTask 5 Sample.milk
          (Loading.fetchSettled None (Loading.loadStored [] initialState))).
Proof.
  apply (unseeded_history_cannot_undo
           (Loading.fetchSettled None (Loading.loadStored [] initialState)));
    reflexivity.
Defined.

(** ** Creating and deleting tasks *)

(** X8. Creating a task appends exactly one task at the end of the list and
    leaves the others as they are; the new task's [id] is the creation time,
    whatever [id] the draft carried, and every other property is the
    draft's. One success notification is emitted, and on an initialized
    history the new list becomes the entry right after the cursor, with the
    cursor on it. *)
Theorem handleCreateTask_effect (now : Z) (draft : Task) (s : State) :
  exists task,
    tasks (handleCreateTask now draft s) = tasks s ++ [task]
    ∧ task !! "id" = Some (VNum now)
    ∧ (forall k, k ≠ "id" -> task !! k = draft !! k)
    ∧ toasts (handleCreateTask now draft s)
      = toasts s ++ [mkToast "Task created successfully!" None]
    ∧ (initialized s ->
       history (handleCreateTask now draft s)
       = take (Z.to_nat (historyIndex s + 1)) (history s)
         ++ [tasks s ++ [task]]
       ∧ historyIndex (handleCreateTask now draft s) = historyIndex s + 1).
Proof.
  exists (<["id" := VNum now]> draft). split; [done|].
  split; [apply lookup_insert_eq|].
  split; [intros k Hk; by apply lookup_insert_ne|].
  split; [done|]. intros Hs. split.
  - apply (push_entries s _ "Task created successfully!" None Hs).
  - apply (push_cursor s _ "Task created successfully!" None Hs).
Qed.

Lemma handleCreateTask_effect_witness :
  exists task,
    history (handleCreateTask 9 Sample.call Sample.undone)
    = [[Sample.milk]; [Sample.milk; task]]
    ∧ task !! "id" = Some (VNum 9).
Proof.
  destruct (handleCreateTask_effect 9 Sample.call Sample.undone)
    as (task & _ & Hid & _ & _ & Hhistory).
  exists task. split; [|exact Hid].
  apply Hhistory. split; [discriminate | split; [discriminate | reflexivity]].
Defined.

Section DeleteFacts.
Implicit Types (s : State) (taskId : option value).


Lemma filter_sublist {A} (f : A -> bool) (l : list A) :
  List.filter f l `sublist_of` l.
Proof.
  induction l as [|x l IH]; cbn; [done|].
  destruct (f x); by constructor.
Qed.
End DeleteFacts.



(** X11. Saving the same edit twice changes the task list no further than
    saving it once, yet the second save is again notified. *)
Theorem handleEditTask_twice (updatedTask : Task) (s : State) :
  tasks (handleEditTask updatedTask (handleEditTask updatedTask s))
  = tasks (handleEditTask updatedTask s)
  ∧ toasts (handleEditTask updatedTask (handleEditTask updatedTask s))
    = toasts s ++ [mkToast "Task updated successfully!" None;
                   mkToast "Task updated successfully!" None].
Proof.
  split.
  - cbn. rewrite map_map. apply map_ext. intros task.
    destruct (Js.strict_eq (task !! "id") (updatedTask !! "id")) eqn:Hid;
      [|by rewrite Hid].
    unfold Js.strict_eq. by rewrite bool_decide_eq_true_2.
  - cbn. by rewrite <- app_assoc.
Qed.

(** ** Selection and bulk delete *)

Section SelectionFacts.
Implicit Types (s : State) (id taskId : option value)
  (ids prev selectedTasks : list (option value)).

Lemma strict_eq_sym (a b : option value) : Js.strict_eq a b = Js.strict_eq b a.
Proof. unfold Js.strict_eq. apply bool_decide_ext. split; congruence. Qed.

Lemma selection_includes_spec ids id :
  Selection.includes ids id = true <-> id ∈ ids.
Proof.
  unfold Selection.includes. rewrite existsb_exists. split.
  - intros (other & Hin & Heq). apply strict_eq_spec in Heq as ->.
    by apply list_elem_of_In.
  - intros Hin. exists id. split; [by apply list_elem_of_In|].
    by apply strict_eq_spec.
Qed.

Lemma selection_includes_false ids id :
  Selection.includes ids id = false <-> id ∉ ids.
Proof.
  rewrite <- selection_includes_spec. by destruct (Selection.includes ids id).
Qed.

Lemma elem_of_filter_bool {A} (f : A -> bool) (l : list A) x :
  x ∈ List.filter f l <-> x ∈ l ∧ f x = true.
Proof. by rewrite list_elem_of_In, filter_In, <- list_elem_of_In. Qed.

Lemma NoDup_filter_bool {A} (f : A -> bool) (l : list A) :
  NoDup l -> NoDup (List.filter f l).
Proof. intros Hl. eapply sublist_NoDup; [done|apply filter_sublist]. Qed.

Lemma filter_bool_ext {A} (f g : A -> bool) (l : list A) :
  (forall x, f x = g x) -> List.filter f l = List.filter g l.
Proof. intros Hfg. apply filter_ext_in. auto. Qed.

Lemma filter_bool_all {A} (f : A -> bool) (l : list A) :
  (forall x, x ∈ l -> f x = true) -> List.filter f l = l.
Proof.
  induction l as [|x l IH]; intros Hall; [done|]. cbn.
  rewrite Hall by (by left). f_equal. apply IH. intros y Hy. apply Hall. by right.
Qed.

Lemma filter_bool_filter {A} (f g : A -> bool) (l : list A) :
  List.filter f (List.filter g l) = List.filter (fun x => g x && f x) l.
Proof.
  induction l as [|x l IH]; [done|]. cbn.
  destruct (g x); cbn; [|done]. by destruct (f x); rewrite IH.
Qed.

Lemma bulk_delete_push selectedTasks s :
  selectedTasks ≠ [] ->
  Selection.handleBulkDelete true selectedTasks s
  = (push (List.filter
             (fun task => negb (Selection.includes selectedTasks (task !! "id")))
             (tasks s))
          (pretty (length selectedTasks) +:+ " tasks deleted successfully!")
          (Some Wastebasket) s,
     []).
Proof. intros Hne. by destruct selectedTasks. Qed.

Lemma bulk_delete_kept selectedTasks s task :
  selectedTasks ≠ [] ->
  task ∈ tasks (Selection.handleBulkDelete true selectedTasks s).1
  <-> task ∈ tasks s ∧ task !! "id" ∉ selectedTasks.
Proof.
  intros Hsel. rewrite (bulk_delete_push selectedTasks s Hsel).
  cbn. rewrite elem_of_filter_bool, negb_true_iff.
  by rewrite selection_includes_false.
Qed.

Lemma deleteEach_tasks ids s :
  tasks (deleteEach ids s)
  = List.filter (fun task => negb (Selection.includes ids (task !! "id")))
                (tasks s).
Proof.
  revert s. induction ids as [|id ids IH]; intros s.
  - cbn. by rewrite filter_bool_all.
  - change (deleteEach (id :: ids) s)
      with (deleteEach ids (handleDeleteTask true id s)).
    rewrite IH. cbn [tasks handleDeleteTask toast_success addToHistory
                     setHistoryIndex setHistory setTasks].
    rewrite filter_bool_filter. apply filter_bool_ext. intros task. cbn.
    by rewrite negb_orb, (strict_eq_sym id).
Qed.

Lemma deleteEach_history ids s :
  initialized s ->
  initialized (deleteEach ids s)
  ∧ historyIndex (deleteEach ids s) = historyIndex s + Z.of_nat (length ids).
Proof.
  revert s. induction ids as [|id ids IH]; intros s Hs.
  - cbn. split; [done|lia].
  - set (newTasks := List.filter
           (fun task : Task => negb (Js.strict_eq (task !! "id") id)) (tasks s)).
    change (deleteEach (id :: ids) s)
      with (deleteEach ids
              (push newTasks "Task deleted successfully!" (Some Wastebasket) s)).
    pose proof (push_initialized s newTasks
      "Task deleted successfully!" (Some Wastebasket) Hs) as Hs1.
    pose proof (push_cursor s newTasks
      "Task deleted successfully!" (Some Wastebasket) Hs) as Hidx.
    destruct (IH _ Hs1) as [Hinit Hcursor]. split; [done|].
    rewrite Hcursor, Hidx. cbn [length]. lia.
Qed.
End SelectionFacts.

(** X10. On a seeded history every mutation can be taken back: an undo right
    after creating, editing, deleting (confirmed) or bulk-deleting
    (confirmed, with something selected) puts the previous task list back
    and the cursor where it was. *)
Theorem mutations_undoable (s : State) (now : Z) (draft updatedTask : Task)
    (taskId : option value) (selectedTasks : list (option value)) :
  coherent s -> selectedTasks ≠ [] ->
  Forall (fun s' => exists s'', handleUndo s' = Ok s''
                                ∧ tasks s'' = tasks s
                                ∧ historyIndex s'' = historyIndex s)
         [ handleCreateTask now draft s;
           handleEditTask updatedTask s;
           handleDeleteTask true taskId s;
           (Selection.handleBulkDelete true selectedTasks s).1 ].
Proof.
  intros Hs Hsel. rewrite (bulk_delete_push selectedTasks s Hsel).
  repeat apply Forall_cons_2; [..|apply Forall_nil_2];
    by apply undo_after_push.
Qed.

Lemma mutations_undoable_witness :
  exists s'', handleUndo (Selection.handleBulkDelete true [Some (VNum 1)] Sample.created).1
              = Ok s''
              ∧ tasks s'' = tasks Sample.created
              ∧ historyIndex s'' = historyIndex Sample.created.
Proof.
  pose proof (mutations_undoable Sample.created 0 Sample.milk Sample.milk None
                [Some (VNum 1)]) as Hall.
  eapply Forall_forall in Hall.
  - exact Hall.
  - split; [split; [discriminate | split; [discriminate | reflexivity]]
           | reflexivity].
  - discriminate.
  - do 3 right. left.
Defined.



Section CountingFacts.
Implicit Types (s : State) (selectedTasks : list (option value)).

Lemma filter_bool_length {A} (f : A -> bool) (l : list A) :
  (length (List.filter f l) + length (List.filter (fun x => negb (f x)) l)
   = length l)%nat.
Proof.
  induction l as [|x l IH]; [done|]. cbn. destruct (f x); cbn; lia.
Qed.

Lemma selected_tasks_length selectedTasks (l : list Task) :
  NoDup ((fun task : Task => task !! "id") <$> l) ->
  NoDup selectedTasks ->
  (forall id, id ∈ selectedTasks -> id ∈ (fun task : Task => task !! "id") <$> l) ->
  length (List.filter
            (fun task => Selection.includes selectedTasks (task !! "id")) l)
  = length selectedTasks.
Proof.
  intros Hids Hsel Hsub.
  rewrite <- (length_fmap (fun task : Task => task !! "id")).
  apply Permutation_length, NoDup_Permutation; [|done|].
  - eapply sublist_NoDup; [exact Hids|]. apply fmap_sublist, filter_sublist.
  - intros id. rewrite list_elem_of_fmap. split.
    + intros (task & -> & Hin). apply elem_of_filter_bool in Hin as [_ Hin].
      by apply selection_includes_spec.
    + intros Hin. pose proof (Hsub id Hin) as Hex.
      apply list_elem_of_fmap in Hex as (task & -> & Htask).
      exists task. split; [done|]. apply elem_of_filter_bool. split; [done|].
      by apply selection_includes_spec.
Qed.
End CountingFacts.

(** X13. When the tasks' ids are pairwise different and the selection holds
    pairwise different ids of tasks in the list, a confirmed bulk delete
    shortens the list by exactly the number of selected ids (3 selected out
    of 10 leave 7). *)
Theorem handleBulkDelete_count (selectedTasks : list (option value))
    (s : State) :
  selectedTasks ≠ [] ->
  NoDup (map (fun task : Task => task !! "id") (tasks s)) ->
  NoDup selectedTasks ->
  (forall id, id ∈ selectedTasks ->
              id ∈ map (fun task : Task => task !! "id") (tasks s)) ->
  (length (tasks (Selection.handleBulkDelete true selectedTasks s).1)
   + length selectedTasks = length (tasks s))%nat.
Proof.
  intros Hne Hids Hsel Hsub. rewrite (bulk_delete_push selectedTasks s Hne).
  cbn [fst tasks push toast_success addToHistory setHistoryIndex setHistory
       setTasks].
  rewrite <- (selected_tasks_length selectedTasks (tasks s) Hids Hsel Hsub).
  rewrite Nat.add_comm.
  apply (filter_bool_length
           (fun task : Task => Selection.includes selectedTasks (task !! "id"))).
Qed.

Lemma handleBulkDelete_count_witness :
  (length (tasks (Selection.handleBulkDelete true [Some (VNum 2)]
                    Sample.created).1)
   + length [Some (VNum 2)] = length (tasks Sample.created))%nat.
Proof.
  apply (handleBulkDelete_count [Some (VNum 2)] Sample.created).
  - discriminate.
  - cbn. apply NoDup_cons. split; [|apply NoDup_singleton].
    intros Hin. apply list_elem_of_singleton in Hin. by vm_compute in Hin.
  - apply NoDup_singleton.
  - intros id Hin. apply list_elem_of_singleton in Hin as ->.
    right. left.
Defined.

(** X14. A confirmed bulk delete leaves the same task list as deleting the
    selected ids one confirmed click after the other; on an initialized
    history the former advances the cursor by one entry, the latter by one
    entry per id. *)
Theorem handleBulkDelete_as_single_deletes
    (selectedTasks : list (option value)) (s : State) :
  selectedTasks ≠ [] ->
  tasks (Selection.handleBulkDelete true selectedTasks s).1
  = tasks (deleteEach selectedTasks s)
  ∧ (initialized s ->
     historyIndex (Selection.handleBulkDelete true selectedTasks s).1
     = historyIndex s + 1
     ∧ historyIndex (deleteEach selectedTasks s)
       = historyIndex s + Z.of_nat (length selectedTasks)).
Proof.
  intros Hne. rewrite (bulk_delete_push selectedTasks s Hne). split.
  - by rewrite deleteEach_tasks.
  - intros Hs. split.
    + by apply push_cursor.
    + by apply deleteEach_history.
Qed.

Lemma handleBulkDelete_as_single_deletes_witness :
  historyIndex (Selection.handleBulkDelete true [Some (VNum 1); Some (VNum 2)]
                  Sample.created).1 = historyIndex Sample.created + 1
  ∧ historyIndex (deleteEach [Some (VNum 1); Some (VNum 2)] Sample.created)
    = historyIndex Sample.created + Z.of_nat 2.
Proof.
  apply (handleBulkDelete_as_single_deletes [Some (VNum 1); Some (VNum 2)]
           Sample.created).
  - discriminate.
  - split; [discriminate | split; [discriminate | reflexivity]].
Defined.

(** X15. Clicking a row's checkbox toggles that id in the selection and no
    other: the id is selected afterwards exactly when it was not before,
    every other id keeps its status, a selection without repetitions stays
    without repetitions, and two clicks on an unselected id give back the
    selection as it was. *)
Theorem handleSelectTask_toggles (taskId : option value)
    (prev : list (option value)) :
  (taskId ∈ Selection.handleSelectTask taskId prev <-> taskId ∉ prev)
  ∧ (forall id, id ≠ taskId ->
                id ∈ Selection.handleSelectTask taskId prev <-> id ∈ prev)
  ∧ (NoDup prev -> NoDup (Selection.handleSelectTask taskId prev))
  ∧ (taskId ∉ prev ->
     Selection.handleSelectTask taskId
       (Selection.handleSelectTask taskId prev) = prev).
Proof.
  unfold Selection.handleSelectTask at 1 2 3.
  destruct (Selection.includes prev taskId) eqn:Hin.
  - apply selection_includes_spec in Hin. split; [|split; [|split]].
    + rewrite elem_of_filter_bool, negb_true_iff. unfold Js.strict_eq.
      rewrite bool_decide_eq_false. tauto.
    + intros id Hid. rewrite elem_of_filter_bool, negb_true_iff.
      unfold Js.strict_eq. rewrite bool_decide_eq_false. tauto.
    + apply NoDup_filter_bool.
    + done.
  - pose proof Hin as Hout. apply selection_includes_false in Hin.
    split; [|split; [|split]].
    + rewrite elem_of_app, list_elem_of_singleton. tauto.
    + intros id Hid. rewrite elem_of_app, list_elem_of_singleton. tauto.
    + intros Hnodup. apply NoDup_app. split; [done|].
      split; [|apply NoDup_singleton].
      intros id Hid Hid'. apply list_elem_of_singleton in Hid'. by subst.
    + intros _. unfold Selection.handleSelectTask. rewrite Hout.
      assert (Selection.includes (prev ++ [taskId]) taskId = true) as ->.
      { apply selection_includes_spec, elem_of_app. right. by left. }
      rewrite List.filter_app. cbn. unfold Js.strict_eq at 2.
      rewrite bool_decide_eq_true_2 by done. cbn. rewrite app_nil_r.
      apply filter_bool_all. intros id Hid. apply negb_true_iff.
      unfold Js.strict_eq. apply bool_decide_eq_false. by intros ->.
Qed.

Lemma handleSelectTask_toggles_witness :
  NoDup (Selection.handleSelectTask (Some (VNum 2)) [Some (VNum 1)])
  ∧ Selection.handleSelectTask (Some (VNum 2))
      (Selection.handleSelectTask (Some (VNum 2)) [Some (VNum 1)])
    = [Some (VNum 1)]
  ∧ (Some (VNum 1)
       ∈ Selection.handleSelectTask (Some (VNum 2)) [Some (VNum 1)]
     <-> Some (VNum 1) ∈ [Some (VNum 1)]).
Proof.
  destruct (handleSelectTask_toggles (Some (VNum 2)) [Some (VNum 1)])
    as (_ & Hothers & Hnodup & Hback).
  split; [|split].
  - apply Hnodup, NoDup_singleton.
  - apply Hback. intros Hin. apply list_elem_of_singleton in Hin. discriminate.
  - apply Hothers. discriminate.
Defined.

(** X16. Ticking the header checkbox selects the ids of the tasks on the
    current page, unticking it clears the selection; a confirmed bulk delete
    after ticking it removes every task shown on the page, keeps every task
    whose id is on no shown task, and leaves nothing selected. *)
Theorem select_all_then_bulk_delete (page : list Task) (s : State) :
  page ≠ [] ->
  Selection.handleSelectAll false page = []
  ∧ (Selection.handleBulkDelete true (Selection.handleSelectAll true page) s).2
    = []
  ∧ (forall task,
        task ∈ page ->
        task ∉ tasks (Selection.handleBulkDelete true
                        (Selection.handleSelectAll true page) s).1)
  ∧ (forall task,
        task ∈ tasks s ->
        (forall shown, shown ∈ page -> shown !! "id" ≠ task !! "id") ->
        task ∈ tasks (Selection.handleBulkDelete true
                        (Selection.handleSelectAll true page) s).1).
Proof.
  intros Hpage. split; [done|].
  assert (Selection.handleSelectAll true page ≠ []) as Hsel.
  { by destruct page. }
  pose proof (fun task =>
    bulk_delete_kept (Selection.handleSelectAll true page) s task Hsel) as Hkept.
  split; [by rewrite (bulk_delete_push _ s Hsel)|]. split.
  - intros task Hshown [_ Hnot]%Hkept. apply Hnot.
    apply (list_elem_of_fmap_2 (fun task : Task => task !! "id")), Hshown.
  - intros task Hin Hother. apply Hkept. split; [done|].
    intros (shown & Heq & Hshown)%list_elem_of_fmap.
    by apply (Hother shown Hshown).
Qed.

Lemma select_all_then_bulk_delete_witness :
  Sample.milk
    ∉ tasks (Selection.handleBulkDelete true
               (Selection.handleSelectAll true [Sample.milk]) Sample.created).1.
Proof.
  destruct (select_all_then_bulk_delete [Sample.milk] Sample.created)
    as (_ & _ & Hgone & _); [discriminate|].
  apply Hgone. by left.
Defined.

(** ** Further properties of the view chain *)

(** X17. A click on a column header makes that column the sort key. The
    direction is ascending unless the column was already sorted ascending,
    so further clicks on the same header alternate between ascending and
    descending: the third click gives what the first gave. *)
Theorem handleSort_alternates (key : string) (sortConfig : SortConfig) :
  sort_key (handleSort key sortConfig) = Some key
  ∧ (sort_key sortConfig ≠ Some key ->
     sort_direction (handleSort key sortConfig) = "asc")
  ∧ (sort_direction (handleSort key sortConfig) = "asc"
     ∨ sort_direction (handleSort key sortConfig) = "desc")
  ∧ sort_direction (handleSort key (handleSort key sortConfig))
    ≠ sort_direction (handleSort key sortConfig)
  ∧ handleSort key (handleSort key (handleSort key sortConfig))
    = handleSort key sortConfig.
Proof.
  unfold handleSort. cbn [sort_key sort_direction].
  rewrite !(bool_decide_eq_true_2 (Some key = Some key)) by done.
  split; [done|]. split.
  { intros Hne. by rewrite bool_decide_eq_false_2. }
  destruct (bool_decide (sort_key sortConfig = Some key)
            && String.eqb (sort_direction sortConfig) "asc"); cbn;
    (split; [auto|split; done]).
Qed.

Lemma handleSort_alternates_witness :
  sort_direction (handleSort "priority" (byTitle "asc")) = "asc".
Proof.
  apply (handleSort_alternates "priority" (byTitle "asc")). discriminate.
Defined.

Section SortMore.
Variable StringToNumber : string -> option Z.
Implicit Types (a b task : Task) (l : list Task).


Lemma ltb_irrefl (x : string) : String.ltb x x = false.
Proof.
  destruct (String.ltb x x) eqn:Hlt; [|done].
  by destruct (ltb_asym x x).
Qed.

(** The verdict of the title comparator against the order of the titles,
    ties included. *)
Lemma compareTasks_title_order direction a b :
  has_title a -> has_title b ->
  if compareTasks StringToNumber (byTitle direction) a b <=? 0
  then (if String.eqb direction "asc"
        then title_not_after a b else title_not_after b a)
  else (title_of a ≠ title_of b
        ∧ if String.eqb direction "asc"
          then title_not_after b a else title_not_after a b).
Proof.
  intros [ta Ha] [tb Hb].
  rewrite (compareTasks_title StringToNumber direction a b ta tb Ha Hb).
  unfold title_not_after.
  rewrite (title_of_lookup a ta Ha), (title_of_lookup b tb Hb).
  destruct (String.ltb ta tb) eqn:Hab.
  - apply ltb_le_ne in Hab as [Hle Hne].
    destruct (String.eqb direction "asc"); cbn; [done|]. split; [done|done].
  - destruct (String.ltb tb ta) eqn:Hba.
    + apply ltb_le_ne in Hba as [Hle Hne].
      destruct (String.eqb direction "asc"); cbn; [|done].
      split; [congruence|done].
    + assert (ta = tb) as ->.
      { destruct (decide (ta = tb)) as [|Hne]; [done|].
        destruct (ltb_total ta tb Hne); congruence. }
      cbn. by destruct (String.eqb direction "asc").
Qed.

Lemma sortedTasks_ordered direction l :
  Forall has_title l ->
  Sorted (if String.eqb direction "asc"
          then title_not_after else flip title_not_after)
         (sortedTasks StringToNumber (byTitle direction) l).
Proof.
  induction l as [|x l IH]; intros Htitles; [constructor|].
  apply Forall_cons in Htitles as [Hx Hl].
  change (sortedTasks StringToNumber (byTitle direction) (x :: l))
    with (Js.sort_insert (compareTasks StringToNumber (byTitle direction)) x
            (sortedTasks StringToNumber (byTitle direction) l)).
  apply sort_insert_Sorted; [|by apply IH].
  intros y Hy. unfold sortedTasks in Hy. rewrite sort_Permutation in Hy.
  pose proof (compareTasks_title_order direction x y Hx
                ltac:(by eapply Forall_forall in Hl)) as Hverdict.
  destruct (compareTasks _ _ x y <=? 0), (String.eqb direction "asc");
    unfold flip; tauto.
Qed.

Lemma sort_insert_with_title direction title x l :
  has_title x -> Forall has_title l ->
  with_title title
    (Js.sort_insert (compareTasks StringToNumber (byTitle direction)) x l)
  = with_title title (x :: l).
Proof.
  intros Hx Hl. induction l as [|y l IH]; [done|].
  apply Forall_cons in Hl as [Hy Hl]. cbn [Js.sort_insert].
  pose proof (compareTasks_title_order direction x y Hx Hy) as Hverdict.
  destruct (compareTasks _ _ x y <=? 0); [done|].
  destruct Hverdict as [Hne _].
  unfold with_title in *. cbn [List.filter] in *. rewrite (IH Hl).
  destruct (String.eqb_spec (title_of x) title) as [Hxt|Hxt];
    destruct (String.eqb_spec (title_of y) title) as [Hyt|Hyt];
    try done. congruence.
Qed.

Lemma sortedTasks_with_title direction title l :
  Forall has_title l ->
  with_title title (sortedTasks StringToNumber (byTitle direction) l)
  = with_title title l.
Proof.
  induction l as [|x l IH]; intros Htitles; [done|].
  apply Forall_cons in Htitles as [Hx Hl].
  change (sortedTasks StringToNumber (byTitle direction) (x :: l))
    with (Js.sort_insert (compareTasks StringToNumber (byTitle direction)) x
            (sortedTasks StringToNumber (byTitle direction) l)).
  rewrite sort_insert_with_title; [|done|].
  - unfold with_title in *. cbn. by rewrite (IH Hl).
  - apply Forall_forall. intros y Hy.
    unfold sortedTasks in Hy. rewrite sort_Permutation in Hy.
    by eapply Forall_forall in Hl.
Qed.
End SortMore.



(** X19. On tasks whose titles are strings, sorting by title ascending
    leaves no task before one with a smaller title (ties allowed), sorting
    descending none before one with a larger title, and the sort is stable
    in both directions: the tasks that share a title keep the relative order
    they had in the input. *)
Theorem sortedTasks_title_stable (StringToNumber : string -> option Z)
    (filtered : list Task) :
  Forall has_title filtered ->
  Sorted title_not_after
         (sortedTasks StringToNumber (byTitle "asc") filtered)
  ∧ Sorted (flip title_not_after)
           (sortedTasks StringToNumber (byTitle "desc") filtered)
  ∧ forall direction title,
      with_title title
        (sortedTasks StringToNumber (byTitle direction) filtered)
      = with_title title filtered.
Proof.
  intros Htitles. split; [|split].
  - apply (sortedTasks_ordered StringToNumber "asc" filtered Htitles).
  - apply (sortedTasks_ordered StringToNumber "desc" filtered Htitles).
  - intros direction title. by apply sortedTasks_with_title.
Qed.

Lemma sortedTasks_title_stable_witness :
  with_title "Buy milk"
    (sortedTasks (fun _ => None) (byTitle "desc")
       [Sample.milk; Sample.call; <["id" := VNum 8]> Sample.milk])
  = [Sample.milk; <["id" := VNum 8]> Sample.milk].
Proof.
  destruct (sortedTasks_title_stable (fun _ => None)
              [Sample.milk; Sample.call; <["id" := VNum 8]> Sample.milk])
    as (_ & _ & Hstable).
  - repeat constructor; eexists; reflexivity.
  - rewrite Hstable. reflexivity.
Defined.

Section PagesFacts.
Implicit Types (sorted : list Task) (pagination : Pagination).

Lemma pages_take (k : nat) (size : Z) sorted :
  1 <= size -> pages k size sorted = take (k * Z.to_nat size) sorted.
Proof.
  intros Hsize. induction k as [|k IH]; [done|].
  unfold pages in *. rewrite seq_S, map_app, concat_app, IH. cbn [map concat].
  rewrite app_nil_r, paginatedTasks_take_drop by (cbn; lia).
  cbn [currentPage pageSize].
  replace (Z.to_nat ((Z.of_nat (1 + k) - 1) * size))
    with (k * Z.to_nat size)%nat by nia.
  rewrite take_take_drop. f_equal. lia.
Qed.

Lemma paginatedTasks_length pagination sorted :
  1 <= currentPage pagination -> 1 <= pageSize pagination ->
  Z.of_nat (length (paginatedTasks pagination sorted))
  = Z.min (pageSize pagination)
          (Z.max 0 (Z.of_nat (length sorted)
                    - (currentPage pagination - 1) * pageSize pagination)).
Proof.
  intros Hp Hs. rewrite paginatedTasks_take_drop by done.
  rewrite length_take, length_drop. nia.
Qed.
End PagesFacts.

(** X20. The pages tile the list: for a page size of at least 1, pages 1 to
    [totalPages] put one after the other are exactly the sorted list, so
    every task appears on one page and on one only. *)
Theorem pages_cover_list (sorted : list Task) (pagination : Pagination)
    (n : Z) :
  1 <= pageSize pagination ->
  totalPages pagination sorted = Some n ->
  pages (Z.to_nat n) (pageSize pagination) sorted = sorted.
Proof.
  intros Hsize Htotal.
  destruct (totalPages_ceiling pagination sorted Hsize) as (n' & Hn' & Hlo & Hhi).
  assert (n' = n) as -> by congruence.
  rewrite pages_take by done. apply take_ge. nia.
Qed.

Lemma pages_cover_list_witness :
  pages 2 10 (replicate 12 Sample.milk) = replicate 12 Sample.milk.
Proof.
  apply (pages_cover_list (replicate 12 Sample.milk) (mkPagination 1 10) 2).
  - by vm_compute.
  - reflexivity.
Defined.

(** X21. For a page number and a page size of at least 1: a page never has
    more tasks than the page size, every page before the last is full, and a
    page is empty exactly when its number is beyond [totalPages]. The page
    number is not capped: beyond the last page the Next button is still
    enabled and moves one page further. *)
Theorem page_lengths (sorted : list Task) (pagination : Pagination) (n : Z) :
  1 <= currentPage pagination -> 1 <= pageSize pagination ->
  totalPages pagination sorted = Some n ->
  Z.of_nat (length (paginatedTasks pagination sorted)) <= pageSize pagination
  ∧ (currentPage pagination < n ->
     Z.of_nat (length (paginatedTasks pagination sorted))
     = pageSize pagination)
  ∧ (paginatedTasks pagination sorted = [] <-> n < currentPage pagination)
  ∧ (n < currentPage pagination ->
     PageControls.clickNext sorted pagination
     = mkPagination (currentPage pagination + 1) (pageSize pagination)).
Proof.
  intros Hp Hs Htotal.
  destruct (totalPages_ceiling pagination sorted Hs) as (n' & Hn' & Hlo & Hhi).
  assert (n' = n) as -> by congruence.
  pose proof (paginatedTasks_length pagination sorted Hp Hs) as Hlen.
  split; [lia|]. split; [intros Hlt; nia|]. split.
  - rewrite <- length_zero_iff_nil. split; intros Hcase; nia.
  - intros Hbeyond. unfold PageControls.clickNext.
    rewrite bool_decide_eq_false_2; [done|]. rewrite Htotal. intros [= ->]. lia.
Qed.

Lemma page_lengths_witness :
  paginatedTasks (mkPagination 2 10) [Sample.milk; Sample.report] = []
  ∧ PageControls.clickNext [Sample.milk; Sample.report] (mkPagination 2 10)
    = mkPagination 3 10.
Proof.
  destruct (page_lengths [Sample.milk; Sample.report] (mkPagination 2 10) 1)
    as (_ & _ & Hempty & Hnext).
  - by vm_compute.
  - by vm_compute.
  - reflexivity.
  - split; [apply Hempty | apply Hnext]; reflexivity.
Defined.

(** X22. The page controls never bring the page number below 1: starting
    from a page number of at least 1, any sequence of Previous, Next and
    page-size changes ends on a page number of at least 1. Previous undoes a
    Next that moved. *)
Theorem page_number_stays_positive (sorted : list Task)
    (actions : list PageControls.action) (pagination : Pagination) :
  1 <= currentPage pagination ->
  1 <= currentPage
         (foldl (fun p a => PageControls.perform sorted a p) pagination actions)
  ∧ (PageControls.clickNext sorted pagination ≠ pagination ->
     PageControls.clickPrevious (PageControls.clickNext sorted pagination)
     = pagination).
Proof.
  intros Hp. split.
  - revert pagination Hp. induction actions as [|a actions IH];
      intros pagination Hp; [done|].
    cbn [foldl]. apply IH. destruct a; cbn.
    + unfold PageControls.clickPrevious.
      destruct (Z.eqb_spec (currentPage pagination) 1); cbn; lia.
    + unfold PageControls.clickNext. destruct (bool_decide _); cbn; lia.
    + lia.
  - unfold PageControls.clickNext. destruct (bool_decide _); [done|].
    intros _. unfold PageControls.clickPrevious. cbn.
    destruct (Z.eqb_spec (currentPage pagination + 1) 1); [lia|].
    destruct pagination. cbn. f_equal. lia.
Qed.

Lemma page_number_stays_positive_witness :
  1 <= currentPage
         (foldl (fun p a => PageControls.perform [Sample.milk] a p)
                (mkPagination 1 10)
                [PageControls.Previous; PageControls.Next;
                 PageControls.Previous; PageControls.Previous])
  ∧ PageControls.clickPrevious
      (PageControls.clickNext [] (mkPagination 1 10))
    = mkPagination 1 10.
Proof.
  split.
  - apply (page_number_stays_positive [Sample.milk]). by vm_compute.
  - apply (page_number_stays_positive [] [] (mkPagination 1 10));
      [by vm_compute | discriminate].
Defined.

Section FilterMore.
Implicit Types (filters : Filters) (task : Task) (tasks kept : list Task).

Lemma has_title_dec task : has_title task ∨ ¬ has_title task.
Proof.
  unfold has_title.
  destruct (task !! "title") as [[| | |title]|]; eauto;
    right; by intros [? [=]].
Qed.

Lemma matchesFilters_throws filters task :
  ¬ has_title task -> matchesFilters filters task = Throw TypeError.
Proof.
  intros Hno. unfold matchesFilters.
  destruct (task !! "title") as [[| | |title]|] eqn:Htitle; try done.
  destruct Hno. by exists title.
Qed.

Lemma filteredTasks_cons filters task tasks :
  filteredTasks filters (task :: tasks)
  = Js.bind (matchesFilters filters task) (fun keep =>
    Js.bind (filteredTasks filters tasks) (fun rest =>
    Ok (if keep then task :: rest else rest))).
Proof. reflexivity. Qed.

Lemma filteredTasks_outcome filters tasks :
  (Forall has_title tasks
   ∧ filteredTasks filters tasks = Ok (List.filter (passes filters) tasks))
  ∨ (¬ Forall has_title tasks ∧ filteredTasks filters tasks = Throw TypeError).
Proof.
  induction tasks as [|task tasks IH].
  - left. by split.
  - rewrite filteredTasks_cons.
    destruct (has_title_dec task) as [Htitle|Hno].
    + rewrite (matchesFilters_returns filters task Htitle). cbn [Js.bind].
      destruct IH as [[Hall ->]|[Hnot ->]].
      * left. split; [by constructor|]. cbn. by destruct (passes filters task).
      * right. split; [|done]. by intros [_ ?]%Forall_cons.
    + rewrite (matchesFilters_throws filters task Hno). right.
      split; [|done]. by intros [? _]%Forall_cons.
Qed.

Lemma untitled_task tasks :
  ¬ Forall has_title tasks -> exists task, task ∈ tasks ∧ ¬ has_title task.
Proof.
  induction tasks as [|task tasks IH]; intros Hnot.
  - destruct Hnot. constructor.
  - destruct (has_title_dec task) as [Htitle|Hno].
    + destruct IH as (task' & Hin & Hno').
      { intros Hall. apply Hnot. by constructor. }
      exists task'. split; [by right|done].
    + exists task. split; [by left|done].
Qed.

Lemma includes_empty (s : string) : Js.includes s "" = true.
Proof. apply includes_spec. by exists "", s. Qed.

Lemma passes_default task :
  has_title task -> passes (mkFilters "" "all" "all") task = true.
Proof.
  intros [title Htitle]. unfold passes, matchesFilters. rewrite Htitle.
  cbn. by rewrite includes_empty.
Qed.
End FilterMore.

(** X23. The filter step fails as a whole or not at all: it throws a
    [TypeError] exactly when some task's title is not a string (missing,
    [null], a number or a boolean), whatever the filters, and otherwise it
    returns a list. *)
Theorem filteredTasks_throws (filters : Filters) (tasks : list Task) :
  (filteredTasks filters tasks = Throw TypeError
   <-> exists task, task ∈ tasks ∧ ¬ has_title task)
  ∧ ((exists kept, filteredTasks filters tasks = Ok kept)
     <-> Forall has_title tasks).
Proof.
  destruct (filteredTasks_outcome filters tasks) as [[Hall Hok]|[Hnot Hthrow]].
  - rewrite Hok. split.
    + split; [done|]. intros (task & Hin & Hno).
      by eapply Forall_forall in Hall.
    + split; [done|]. intros _. by eexists.
  - rewrite Hthrow. split.
    + split; [|done]. intros _. by apply untitled_task.
    + split; [by intros [? [=]]|done].
Qed.

Lemma filteredTasks_throws_witness :
  filteredTasks (mkFilters "" "all" "all")
                [Sample.milk; <["title" := VNum 4]> Sample.report]
  = Throw TypeError.
Proof.
  apply (filteredTasks_throws (mkFilters "" "all" "all")
           [Sample.milk; <["title" := VNum 4]> Sample.report]).
  exists (<["title" := VNum 4]> Sample.report). split.
  - right. by left.
  - intros [title Htitle]. by vm_compute in Htitle.
Defined.

(** X24. What the filter step returns is a sub-list of the task list, in
    the same order; filtering the result again with the same filters changes
    nothing; and the initial filters (empty title, priority and status
    ["all"]) keep every task. *)
Theorem filteredTasks_narrows (filters : Filters) (tasks kept : list Task) :
  filteredTasks filters tasks = Ok kept ->
  kept `sublist_of` tasks
  ∧ filteredTasks filters kept = Ok kept
  ∧ filteredTasks (mkFilters "" "all" "all") tasks = Ok tasks.
Proof.
  intros Hkept.
  destruct (filteredTasks_outcome filters tasks) as [[Hall Hok]|[_ Hthrow]];
    [|congruence].
  assert (kept = List.filter (passes filters) tasks) as -> by congruence.
  split; [apply filter_sublist|]. split.
  - rewrite filteredTasks_passes.
    + f_equal. rewrite filter_bool_filter. apply filter_bool_ext.
      intros task. by destruct (passes filters task).
    + apply Forall_forall. intros task [Hin _]%elem_of_filter_bool.
      by eapply Forall_forall in Hall.
  - rewrite filteredTasks_passes by done. f_equal.
    apply filter_bool_all. intros task Hin. apply passes_default.
    by eapply Forall_forall in Hall.
Qed.

Lemma filteredTasks_narrows_witness :
  filteredTasks (mkFilters "B" "all" "all") [Sample.milk; Sample.call]
  = Ok [Sample.milk; Sample.call]
  ∧ filteredTasks (mkFilters "" "all" "all")
      [Sample.milk; Sample.report; Sample.call]
    = Ok [Sample.milk; Sample.report; Sample.call].
Proof.
  destruct (filteredTasks_narrows (mkFilters "B" "all" "all")
              [Sample.milk; Sample.report; Sample.call]
              [Sample.milk; Sample.call]) as (_ & Hagain & Hdefault).
  - reflexivity.
  - split; [exact Hagain | exact Hdefault].
Defined.

(** ** Further properties of the custom-field backfill *)

Section BackfillMore.
Implicit Types (task : Task) (field : Field) (fields : list Field)
  (s : State).

Lemma backfillField_has_property task field k :
  Js.has_property k task = true ->
  Js.has_property k (backfillField task field) = true.
Proof.
  unfold Js.has_property. rewrite !orb_true_iff, !bool_decide_eq_true.
  intros [[v Hk]|Hproto]; [left|by right].
  exists v. by apply backfillField_keeps.
Qed.

Lemma backfillField_sets task field :
  Js.has_property (field_name field) (backfillField task field) = true.
Proof.
  unfold backfillField.
  destruct (Js.has_property (field_name field) task) eqn:Hin; cbn; [done|].
  apply (has_property_own _ _ (defaultValue (field_type field))).
  apply lookup_insert_eq.
Qed.

Lemma backfill_has_property fields task k :
  Js.has_property k task = true ->
  Js.has_property k (backfill fields task) = true.
Proof.
  revert task. induction fields as [|field fields IH]; intros task Hk; [done|].
  change (backfill (field :: fields) task)
    with (backfill fields (backfillField task field)).
  by apply IH, backfillField_has_property.
Qed.

Lemma backfill_sets fields task field :
  field ∈ fields ->
  Js.has_property (field_name field) (backfill fields task) = true.
Proof.
  revert task. induction fields as [|first fields IH]; intros task Hin.
  - by apply elem_of_nil in Hin.
  - change (backfill (first :: fields) task)
      with (backfill fields (backfillField task first)).
    apply elem_of_cons in Hin as [->|Hin]; [|by apply IH].
    apply backfill_has_property, backfillField_sets.
Qed.

Lemma backfill_unchanged fields task :
  (forall field, field ∈ fields ->
                 Js.has_property (field_name field) task = true) ->
  backfill fields task = task.
Proof.
  induction fields as [|field fields IH]; intros Hall; [done|].
  change (backfill (field :: fields) task)
    with (backfill fields (backfillField task field)).
  unfold backfillField. rewrite (Hall field) by (by left). cbn.
  apply IH. intros field' Hin. apply Hall. by right.
Qed.

Lemma backfill_skips_inherited fields task k :
  k ∈ Js.Object_prototype_keys -> task !! k = None ->
  backfill fields task !! k = None.
Proof.
  intros Hproto. revert task.
  induction fields as [|field fields IH]; intros task Hk; [done|].
  change (backfill (field :: fields) task)
    with (backfill fields (backfillField task field)).
  apply IH. unfold backfillField.
  destruct (Js.has_property (field_name field) task) eqn:Hin; cbn; [done|].
  rewrite lookup_insert_ne; [done|]. intros Heq. rewrite Heq in Hin.
  unfold Js.has_property in Hin. apply orb_false_iff in Hin as [_ Hin].
  by apply bool_decide_eq_false in Hin.
Qed.

Lemma undo_after_push_entry s entry newTasks msg icon :
  initialized s ->
  Js.index (history s) (historyIndex s) = Some entry ->
  exists s', handleUndo (push newTasks msg icon s) = Ok s'
             ∧ tasks s' = entry ∧ historyIndex s' = historyIndex s
             ∧ customFields s' = customFields s.
Proof.
  intros Hs Hcur.
  pose proof (push_initialized s newTasks msg icon Hs) as Hpushed.
  pose proof (push_cursor s newTasks msg icon Hs) as Hidx.
  destruct Hs as [Hne Hi].
  destruct (handleUndo_steps _ Hpushed) as (snapshot & Hsnap & ->); [lia|].
  eexists. split; [done|].
  cbn [tasks historyIndex customFields setTasks setHistoryIndex].
  split; [|split; [lia|done]].
  rewrite push_entries, Hidx in Hsnap by done.
  rewrite index_lookup in Hcur by lia.
  rewrite lookup_app_l in Hsnap by (rewrite length_take; lia).
  rewrite lookup_take_lt in Hsnap by lia.
  replace (Z.to_nat (historyIndex s + 1 - 1)) with (Z.to_nat (historyIndex s))
    in Hsnap by lia.
  congruence.
Qed.
End BackfillMore.

(** X25. After the backfill every saved field name is a property of every
    task in the sense of [in]; it is an own key unless the name is one that
    every object inherits ([toString], [constructor], ...): such a name,
    although it passes as a field name, is never written onto a task. Saving
    the same fields a second time changes nothing. *)
Theorem backfill_completes (fields : list Field) (s : State) :
  (forall task field,
      task ∈ tasks (handleCustomFieldsSave fields s) -> field ∈ fields ->
      Js.has_property (field_name field) task = true
      ∧ (field_name field ∉ Js.Object_prototype_keys ->
         is_Some (task !! field_name field)))
  ∧ (forall task k,
        k ∈ Js.Object_prototype_keys -> task !! k = None ->
        backfill fields task !! k = None)
  ∧ handleCustomFieldsSave fields (handleCustomFieldsSave fields s)
    = handleCustomFieldsSave fields s.
Proof.
  split; [|split].
  - intros task' field Htask Hfield. cbn in Htask.
    apply list_elem_of_fmap in Htask as (task & -> & _).
    pose proof (backfill_sets fields task field Hfield) as Hin.
    split; [done|]. intros Hproto. unfold Js.has_property in Hin.
    apply orb_true_iff in Hin as [Hown|Hinh].
    + by apply bool_decide_eq_true in Hown.
    + by apply bool_decide_eq_true in Hinh.
  - intros task k. apply backfill_skips_inherited.
  - unfold handleCustomFieldsSave, setTasks, setCustomFields. cbn. f_equal.
    rewrite map_map. apply map_ext. intros task.
    apply backfill_unchanged. intros field. apply backfill_sets.
Qed.

Lemma backfill_completes_witness :
  is_Some (backfill [mkField 7 "done" "checkbox"; mkField 8 "toString" "text"]
             Sample.milk !! "done")
  ∧ backfill [mkField 7 "done" "checkbox"; mkField 8 "toString" "text"]
      Sample.milk !! "toString" = None.
Proof.
  destruct (backfill_completes
              [mkField 7 "done" "checkbox"; mkField 8 "toString" "text"]
              Sample.loaded) as (Hown & Hinherited & _).
  split.
  - apply (Hown _ (mkField 7 "done" "checkbox")).
    + apply (list_elem_of_fmap_2 (backfill _)). by left.
    + by left.
    + apply (bool_decide_eq_false_1 ("done" ∈ Js.Object_prototype_keys)).
      reflexivity.
  - apply Hinherited; [|reflexivity].
    do 8 right. left.
Defined.

(** X26. The backfill is lost by the next undo: on a seeded history, saving
    the custom fields, then making any change and undoing it puts back the
    task list from before the backfill, without the values the backfill
    added, while the saved fields stay declared. *)
Theorem backfill_lost_by_undo (fields : list Field) (s : State)
    (newTasks : list Task) (msg : string) (icon : option Icon) :
  coherent s ->
  exists s',
    handleUndo (push newTasks msg icon (handleCustomFieldsSave fields s))
    = Ok s'
    ∧ tasks s' = tasks s
    ∧ customFields s' = fields.
Proof.
  intros [Hs Hcur].
  destruct (undo_after_push_entry (handleCustomFieldsSave fields s) (tasks s)
              newTasks msg icon) as (s' & Hundo & Htasks & _ & Hfields);
    [done|done|].
  by exists s'.
Qed.

Lemma backfill_lost_by_undo_witness :
  exists s',
    handleUndo
      (handleDeleteTask true (Some (VNum 2))
         (handleCustomFieldsSave [mkField 7 "done" "checkbox"] Sample.created))
    = Ok s'
    ∧ tasks s' = tasks Sample.created
    ∧ customFields s' = [mkField 7 "done" "checkbox"].
Proof.
  apply (backfill_lost_by_undo [mkField 7 "done" "checkbox"] Sample.created).
  split; [split; [discriminate | split; [discriminate | reflexivity]]
         | reflexivity].
Defined.

(** ** Further properties of the custom-fields modal *)

Section ModalFacts.
Implicit Types (s : CustomFieldsModal.State) (fields : list Field).

Lemma validateFieldName_accepts fields name :
  CustomFieldsModal.validateFieldName fields name = "" ->
  (2 <= String.length name)%nat ∧ ¬ duplicates fields name
  ∧ identifier_pattern name.
Proof.
  intros Hok.
  assert (¬ (name = "" ∨ (String.length name < 2)%nat ∨ duplicates fields name
             ∨ ¬ identifier_pattern name)) as Hnone.
  { rewrite <- validateFieldName_rejects_iff. by intros []. }
  split; [lia|]. split; [tauto|].
  destruct (CustomFieldsModal.identifier_test name) eqn:Htest.
  - by apply identifier_test_spec.
  - exfalso. apply Hnone. do 3 right. rewrite <- identifier_test_spec.
    by rewrite Htest.
Qed.

Lemma handleAddField_accepted now s :
  CustomFieldsModal.validateFieldName (CustomFieldsModal.fields s)
    (CustomFieldsModal.newField_name (CustomFieldsModal.newField s)) = "" ->
  CustomFieldsModal.handleAddField now s
  = CustomFieldsModal.mkState
      (CustomFieldsModal.fields s
       ++ [mkField now
             (CustomFieldsModal.newField_name (CustomFieldsModal.newField s))
             (CustomFieldsModal.newField_type (CustomFieldsModal.newField s))])
      (CustomFieldsModal.mkNewField "" "text") "".
Proof. intros Hok. unfold CustomFieldsModal.handleAddField. by rewrite Hok. Qed.

Lemma handleAddField_rejected now s :
  CustomFieldsModal.validateFieldName (CustomFieldsModal.fields s)
    (CustomFieldsModal.newField_name (CustomFieldsModal.newField s)) ≠ "" ->
  CustomFieldsModal.handleAddField now s
  = CustomFieldsModal.mkState (CustomFieldsModal.fields s)
      (CustomFieldsModal.newField s)
      (CustomFieldsModal.validateFieldName (CustomFieldsModal.fields s)
         (CustomFieldsModal.newField_name (CustomFieldsModal.newField s))).
Proof.
  intros Hrej. unfold CustomFieldsModal.handleAddField.
  by destruct (String.eqb_spec
    (CustomFieldsModal.validateFieldName (CustomFieldsModal.fields s)
       (CustomFieldsModal.newField_name (CustomFieldsModal.newField s))) "").
Qed.

Lemma well_named_sublist fields fields' :
  fields' `sublist_of` fields -> well_named fields -> well_named fields'.
Proof.
  intros Hsub [Hnodup Hall]. split.
  - eapply sublist_NoDup; [exact Hnodup|].
    by apply (fmap_sublist (fun field => Js.toLowerCase (field_name field))).
  - apply Forall_forall. intros field Hin.
    eapply Forall_forall in Hall; [exact Hall|].
    by eapply elem_of_sublist.
Qed.
End ModalFacts.

(** X27. The pending field list stays well named: if its names are pairwise
    different up to case and each is an identifier of at least two
    characters, the same holds after Add, whether the new name is accepted or
    not, and after Remove. (The list a modal starts from the first time is
    empty.) *)
Theorem pending_fields_stay_well_named (now fieldId : Z)
    (s : CustomFieldsModal.State) :
  well_named []
  ∧ (well_named (CustomFieldsModal.fields s) ->
     well_named (CustomFieldsModal.fields (CustomFieldsModal.handleAddField now s))
     ∧ well_named (CustomFieldsModal.fields
                     (CustomFieldsModal.handleRemoveField fieldId s))).
Proof.
  split; [split; constructor|]. intros Hnamed. split.
  - destruct (decide (CustomFieldsModal.validateFieldName
                        (CustomFieldsModal.fields s)
                        (CustomFieldsModal.newField_name
                           (CustomFieldsModal.newField s)) = "")) as [Hok|Hrej].
    + rewrite (handleAddField_accepted now s Hok). cbn.
      destruct (validateFieldName_accepts _ _ Hok) as (Hlen & Hnodup & Hpat).
      destruct Hnamed as [Hdistinct Hall]. split.
      * rewrite map_app. apply NoDup_app. split; [done|]. split.
        -- intros lowered Hin Hnew. cbn in Hnew.
           apply list_elem_of_singleton in Hnew as ->.
           apply list_elem_of_fmap in Hin as (field & Heq & Hfield).
           apply Hnodup. by exists field.
        -- apply NoDup_singleton.
      * apply Forall_app. split; [done|]. by repeat constructor.
    + by rewrite (handleAddField_rejected now s Hrej).
  - eapply well_named_sublist; [|exact Hnamed]. cbn. apply filter_sublist.
Qed.

Lemma pending_fields_stay_well_named_witness :
  well_named
    (CustomFieldsModal.fields
       (CustomFieldsModal.handleAddField 8
          (CustomFieldsModal.mkState []
             (CustomFieldsModal.mkNewField "due_date" "text") ""))).
Proof.
  apply (pending_fields_stay_well_named 8 0). split; constructor.
Defined.

(** X28. Add and Remove on the pending list. A rejected Add leaves the list
    and the typed name as they are and shows the message; an accepted Add
    appends one descriptor, resets the input to an empty name of type
    ["text"] and clears the message. Remove drops every descriptor with the
    given id and keeps all others in order, so removing a descriptor just
    added gives back the previous list provided no older descriptor shares
    its id. *)
Theorem add_remove_field (now fieldId : Z) (s : CustomFieldsModal.State) :
  let name := CustomFieldsModal.newField_name (CustomFieldsModal.newField s) in
  let verdict :=
    CustomFieldsModal.validateFieldName (CustomFieldsModal.fields s) name in
  (verdict ≠ "" ->
   CustomFieldsModal.fields (CustomFieldsModal.handleAddField now s)
   = CustomFieldsModal.fields s
   ∧ CustomFieldsModal.newField (CustomFieldsModal.handleAddField now s)
     = CustomFieldsModal.newField s
   ∧ CustomFieldsModal.error (CustomFieldsModal.handleAddField now s) = verdict)
  ∧ (verdict = "" ->
     CustomFieldsModal.newField (CustomFieldsModal.handleAddField now s)
     = CustomFieldsModal.mkNewField "" "text"
     ∧ CustomFieldsModal.error (CustomFieldsModal.handleAddField now s) = ""
     ∧ ((forall field, field ∈ CustomFieldsModal.fields s ->
                       field_id field ≠ now) ->
        CustomFieldsModal.fields
          (CustomFieldsModal.handleRemoveField now
             (CustomFieldsModal.handleAddField now s))
        = CustomFieldsModal.fields s))
  ∧ (forall field,
        field ∈ CustomFieldsModal.fields
                  (CustomFieldsModal.handleRemoveField fieldId s)
        <-> field ∈ CustomFieldsModal.fields s ∧ field_id field ≠ fieldId).
Proof.
  cbn zeta. split; [|split].
  - intros Hrej. by rewrite (handleAddField_rejected now s Hrej).
  - intros Hok. rewrite (handleAddField_accepted now s Hok). cbn.
    split; [done|]. split; [done|]. intros Hfresh.
    rewrite List.filter_app. cbn. rewrite Z.eqb_refl. cbn.
    rewrite app_nil_r. apply filter_bool_all. intros field Hin.
    apply negb_true_iff, Z.eqb_neq. by apply Hfresh.
  - intros field. cbn. rewrite elem_of_filter_bool, negb_true_iff, Z.eqb_neq.
    done.
Qed.

Lemma add_remove_field_witness :
  CustomFieldsModal.fields
    (CustomFieldsModal.handleRemoveField 8
       (CustomFieldsModal.handleAddField 8
          (CustomFieldsModal.mkState [mkField 7 "done" "checkbox"]
             (CustomFieldsModal.mkNewField "due_date" "text") "")))
  = [mkField 7 "done" "checkbox"]
  ∧ CustomFieldsModal.error
      (CustomFieldsModal.handleAddField 8
         (CustomFieldsModal.mkState [mkField 7 "done" "checkbox"]
            (CustomFieldsModal.mkNewField "Done" "text") ""))
    = "Field name must be unique".
Proof.
  split.
  - apply (add_remove_field 8 0
             (CustomFieldsModal.mkState [mkField 7 "done" "checkbox"]
                (CustomFieldsModal.mkNewField "due_date" "text") ""));
      [reflexivity|].
    intros field Hin. apply list_elem_of_singleton in Hin as ->. discriminate.
  - apply (add_remove_field 8 0
             (CustomFieldsModal.mkState [mkField 7 "done" "checkbox"]
                (CustomFieldsModal.mkNewField "Done" "text") "")).
    discriminate.
Defined.

(** ** Saving from the task modal *)

Section TaskModalFacts.
Implicit Types (formData task : Task) (changes : list (string * value)).

Lemma changes_keep_id changes formData :
  Forall (fun change => change.1 ≠ "id") changes ->
  foldl (fun form change => TaskModal.changeField change.1 change.2 form)
        formData changes !! "id"
  = formData !! "id".
Proof.
  revert formData. induction changes as [|[k v] changes IH];
    intros formData Hkeys; [done|].
  apply Forall_cons in Hkeys as [Hk Hkeys]. cbn [foldl].
  rewrite (IH _ Hkeys). unfold TaskModal.changeField. cbn.
  by apply lookup_insert_ne.
Qed.
End TaskModalFacts.

(** X29. Saving an edit from the task modal. The form starts as the edited
    task; whatever inputs are changed, as long as none of them is a field
    called ["id"], the form keeps the task's id, and saving puts the form's
    content in the place of the edited task, leaving every other task where
    it was (the ids in the list being pairwise different at that task).
    Saving with no task being edited creates instead: the form's content is
    appended with the creation time as its id. *)
Theorem modal_save_replaces_in_place (s : State) (i : nat) (task : Task)
    (changes : list (string * value)) (now : Z) :
  tasks s !! i = Some task ->
  (forall j other,
      tasks s !! j = Some other -> other !! "id" = task !! "id" -> j = i) ->
  Forall (fun change => change.1 ≠ "id") changes ->
  let formData :=
    foldl (fun form change => TaskModal.changeField change.1 change.2 form)
          task changes in
  formData !! "id" = task !! "id"
  ∧ tasks (onSave (Some task) now formData s) = <[i := formData]> (tasks s)
  ∧ tasks (onSave None now formData s)
    = tasks s ++ [<["id" := VNum now]> formData].
Proof.
  intros Hi Hunique Hkeys formData.
  pose proof (changes_keep_id changes task Hkeys) as Hid.
  split; [done|]. split; [|done].
  apply list_eq. intros j. cbn. rewrite list_lookup_fmap.
  destruct (decide (j = i)) as [->|Hne].
  - rewrite Hi, list_lookup_insert_eq by (by eapply lookup_lt_Some). cbn.
    unfold Js.strict_eq. by rewrite bool_decide_eq_true_2.
  - rewrite list_lookup_insert_ne by done.
    destruct (tasks s !! j) as [other|] eqn:Hj; [|done]. cbn. f_equal.
    unfold Js.strict_eq. rewrite bool_decide_eq_false_2; [done|].
    intros Heq. apply Hne, (Hunique j other Hj). by rewrite Heq.
Qed.

Lemma modal_save_replaces_in_place_witness :
  tasks (onSave (Some Sample.milk) 9
           (TaskModal.changeField "status" (VStr "completed") Sample.milk)
           Sample.loaded)
  = [TaskModal.changeField "status" (VStr "completed") Sample.milk].
Proof.
  apply (modal_save_replaces_in_place Sample.loaded 0 Sample.milk
           [("status", VStr "completed")] 9).
  - reflexivity.
  - intros [|j] other Hj _; [done|]. discriminate Hj.
  - repeat constructor. discriminate.
Defined.
